(** * Lifecycle of the service entry point [server.js]

    A shallow embedding of [src/server.js]: the module-level variables
    ([serverInstance], [logger]), the two asynchronous functions
    ([startServer], [gracefulShutdown]) cut at their [await] points, and the
    callbacks registered with [process.on] and [server.on].

    The Node.js event loop is a step function over process states: an event
    is either the top-level call [startServer()], the settling of a promise
    some function is awaiting, or the delivery of an event to the registered
    callbacks.  Everything the program does to the outside (calls into the
    collaborating modules, log lines, [process.exit]) is appended to a trace. *)

From Stdlib Require Import ZArith Lia Ascii.
From stdpp Require Import base list strings.

Local Open Scope string_scope.
Local Open Scope list_scope.

(** ** Data *)

(** The three signals subscribed to on line 95. *)
Inductive Signal : Type := SIGINT | SIGTERM | SIGQUIT.

Global Instance Signal_eq_dec : EqDecision Signal.
Proof. solve_decision. Defined.

Definition signal_name (s : Signal) : string :=
  match s with
  | SIGINT => "SIGINT"
  | SIGTERM => "SIGTERM"
  | SIGQUIT => "SIGQUIT"
  end.

(** A JavaScript error value: [error.message], [error.stack], [error.code]. *)
Record Error : Type := mkError {
  message : string;
  stack : string;
  code : option string
}.

(** The reason of an unhandled rejection is any value: [reason?.message] and
    [reason?.stack] may be missing, [reason_text] is its string rendering. *)
Record Reason : Type := mkReason {
  reason_message : option string;
  reason_stack : option string;
  reason_text : string
}.

(** The object returned by [getLogger()] and by [getSequelize()]. *)
Variant Logger : Type := SinkLogger.
Variant Sequelize : Type := DbConnection.

(** Server objects returned by [app.listen], numbered in creation order. *)
Definition Handle : Type := nat.

(** What the program does to the outside world. *)
Inductive Effect : Type :=
| InitLogger                                   (* loggerModule.initLogger() *)
| GetLogger                                    (* loggerModule.getLogger() *)
| InitDB                                       (* initDB() *)
| GetSequelize                                 (* getSequelize() *)
| InitMail                                     (* initMailTransporter() *)
| Listen (port : string)                       (* app.listen(PORT, cb) *)
| SinkInfo (msg : string)                      (* <logger>.info(msg) *)
| SinkError (msg : string) (trc : option string) (* <logger>.error(msg, {stack}) *)
| ConsoleError (msg : string) (trc : string)   (* console.error(msg, stack) *)
| ServerClose (h : Handle)                     (* serverInstance.close(cb) *)
| SequelizeClose                               (* sequelize.close() *)
| Exit (c : Z).                                (* process.exit(c) *)

Global Instance Effect_eq_dec : EqDecision Effect.
Proof. solve_decision. Defined.

(** Callbacks the program registers.  A closure is recorded with the
    variables it captured: the callbacks created inside the [try] block of
    [startServer] see the block-scoped [const logger] of line 64. *)
Inductive Handler : Type :=
| HListening (h : Handle) (lg : Logger)        (* lines 79-82 *)
| HServerError (h : Handle) (lg : Logger)      (* lines 85-92 *)
| HSignal (s : Signal)                         (* line 96 *)
| HUncaught (lg : option Logger)               (* lines 100-103 *)
| HUnhandled (lg : option Logger).             (* lines 105-111 *)

(** An asynchronous function suspended at one of its [await]s. *)
Inductive Task : Type :=
| StartAwaitLogger                             (* line 63 *)
| StartAwaitDB (lg : Logger)                   (* line 68 *)
| StartAwaitMail (lg : Logger)                 (* line 73 *)
| ShutAwaitServerClose                         (* line 31 *)
| ShutAwaitSequelizeClose                      (* line 43 *)
| Finished.

(** How the process ended: a call of [process.exit], or the runtime's own
    reaction to an event for which the program registered no callback. *)
Inductive ExitStatus : Type :=
| ExitCode (c : Z)
| RuntimeDefault.

Record Proc : Type := mkProc {
  serverInstance : option Handle;   (* line 19 *)
  logger : option Logger;           (* line 20 *)
  handlers : list Handler;          (* registered callbacks, oldest first *)
  tasks : list Task;                (* suspended async calls, by slot *)
  listening : list Handle;          (* servers whose 'listening' event fired *)
  nextHandle : Handle;              (* number of servers created so far *)
  trace : list Effect;              (* oldest first *)
  exited : option ExitStatus
}.

(** The process when the module body has run up to line 126. *)
Definition init : Proc :=
  {| serverInstance := None; logger := None; handlers := []; tasks := [];
     listening := []; nextHandle := 0; trace := []; exited := None |}.

(** The collaborators under [./config] and [./app] are not part of the
    entry point: what their synchronous calls return is a parameter, and may
    depend on everything that happened before the call. *)
Record World : Type := mkWorld {
  env_PORT : option string;                          (* process.env.PORT *)
  getLogger_ret : list Effect -> option Logger;      (* None: null/undefined *)
  getSequelize_ret : list Effect -> option Sequelize;
  listen_throws : list Effect -> option Error;       (* app.listen throws *)
  no_logger_error : Error      (* the TypeError the runtime throws when a
                                  method of a missing logger is called *)
}.

Inductive Event : Type :=
| EvStart                                    (* line 126: startServer() *)
| EvSettle (i : nat) (r : option Error)      (* awaited promise of slot i:
                                                None fulfilled, Some rejected *)
| EvListening (h : Handle)                   (* the server is bound *)
| EvServerError (h : Handle) (e : Error)     (* 'error' event of the server *)
| EvSignal (s : Signal)
| EvUncaught (e : Error)                     (* 'uncaughtException' *)
| EvUnhandled (r : Reason).                  (* 'unhandledRejection' *)

(** ** Primitive state updates *)

Definition emit (e : Effect) (p : Proc) : Proc :=
  {| serverInstance := serverInstance p; logger := logger p;
     handlers := handlers p; tasks := tasks p; listening := listening p;
     nextHandle := nextHandle p; trace := trace p ++ [e];
     exited := exited p |}.

Definition set_tasks (ts : list Task) (p : Proc) : Proc :=
  {| serverInstance := serverInstance p; logger := logger p;
     handlers := handlers p; tasks := ts; listening := listening p;
     nextHandle := nextHandle p; trace := trace p; exited := exited p |}.

(** First suspension of a call: it takes a new slot. *)
Definition spawn (t : Task) (p : Proc) : Proc := set_tasks (tasks p ++ [t]) p.

(** Later suspension of the call in slot [i]. *)
Definition suspend (i : nat) (t : Task) (p : Proc) : Proc :=
  set_tasks (<[i := t]> (tasks p)) p.

Definition set_exited (x : ExitStatus) (p : Proc) : Proc :=
  {| serverInstance := serverInstance p; logger := logger p;
     handlers := handlers p; tasks := tasks p; listening := listening p;
     nextHandle := nextHandle p; trace := trace p; exited := Some x |}.

(** [process.exit(c)]: nothing of the program runs afterwards. *)
Definition process_exit (c : Z) (p : Proc) : Proc :=
  set_exited (ExitCode c) (emit (Exit c) p).

(** [serverInstance = app.listen(...)] returning the next server object. *)
Definition assign_server (p : Proc) : Proc :=
  {| serverInstance := Some (nextHandle p); logger := logger p;
     handlers := handlers p; tasks := tasks p; listening := listening p;
     nextHandle := S (nextHandle p); trace := trace p; exited := exited p |}.

(** [process.on(...)], [server.on(...)] and the callback given to [listen]. *)
Definition register (hd : Handler) (p : Proc) : Proc :=
  {| serverInstance := serverInstance p; logger := logger p;
     handlers := handlers p ++ [hd]; tasks := tasks p;
     listening := listening p; nextHandle := nextHandle p;
     trace := trace p; exited := exited p |}.

Definition mark_listening (h : Handle) (p : Proc) : Proc :=
  {| serverInstance := serverInstance p; logger := logger p;
     handlers := handlers p; tasks := tasks p; listening := h :: listening p;
     nextHandle := nextHandle p; trace := trace p; exited := exited p |}.

(** [lg?.info(msg)] and [lg?.error(msg, {stack})]. *)
Definition opt_info (lg : option Logger) (msg : string) (p : Proc) : Proc :=
  match lg with
  | Some _ => emit (SinkInfo msg) p
  | None => p
  end.

Definition opt_error (lg : option Logger) (msg : string) (trc : option string)
    (p : Proc) : Proc :=
  match lg with
  | Some _ => emit (SinkError msg trc) p
  | None => p
  end.

(** ** The program *)

Section Program.

Variable w : World.

(** Line 18: [process.env.PORT || 3000], as it prints in a template. *)
Definition PORT : string :=
  match env_PORT w with
  | Some s => if String.eqb s "" then "3000" else s
  | None => "3000"
  end.

(** *** gracefulShutdown, lines 25-53 *)

(** Lines 49-52. *)
Definition shutdown_catch (e : Error) (p : Proc) : Proc :=
  process_exit 1
    (opt_error (logger p) ("[优雅关闭失败] " +:+ message e) (Some (stack e)) p).

(** Lines 47-48. *)
Definition shutdown_finish (p : Proc) : Proc :=
  process_exit 0
    (opt_info (logger p) "[服务关闭] 所有资源释放完成，进程退出" p).

(** Lines 41-45, up to the [await]; [park] is how the call suspends. *)
Definition shutdown_db (park : Task -> Proc -> Proc) (p : Proc) : Proc :=
  let p1 := emit GetSequelize p in
  match getSequelize_ret w (trace p) with
  | Some _ => park ShutAwaitSequelizeClose (emit SequelizeClose p1)
  | None => shutdown_finish p1
  end.

(** Lines 26-36, up to the first [await]. *)
Definition gracefulShutdown (signal : string) (p : Proc) : Proc :=
  let p1 :=
    opt_info (logger p)
      ("[进程退出] 接收到 " +:+ signal +:+ " 信号，开始优雅关闭服务...") p in
  match serverInstance p1 with
  | Some h => spawn ShutAwaitServerClose (emit (ServerClose h) p1)
  | None => shutdown_db spawn p1
  end.

(** Line 37 onwards, when the close callback got no error. *)
Definition shutdown_after_server (i : nat) (p : Proc) : Proc :=
  shutdown_db (suspend i)
    (opt_info (logger p) "[HTTP服务器] 已关闭，停止接收新请求" p).

(** Line 44 onwards. *)
Definition shutdown_after_db (p : Proc) : Proc :=
  shutdown_finish (opt_info (logger p) "[数据库] 连接已关闭" p).

(** *** startServer, lines 58-123 *)

(** Lines 113-122.  [logger] here is the module-level variable: the
    [const logger] of line 64 is scoped to the [try] block. *)
Definition start_catch (e : Error) (p : Proc) : Proc :=
  let errorMsg := "[服务启动失败] " +:+ message e in
  process_exit 1
    (match logger p with
     | Some _ => emit (SinkError errorMsg (Some (stack e))) p
     | None => emit (ConsoleError errorMsg (stack e)) p
     end).

(** Lines 62-63, up to the first [await]. *)
Definition startServer (p : Proc) : Proc :=
  spawn StartAwaitLogger (emit InitLogger p).

(** Lines 64-68. *)
Definition start_after_logger (i : nat) (p : Proc) : Proc :=
  let p1 := emit GetLogger p in
  match getLogger_ret w (trace p) with
  | None => start_catch (no_logger_error w) p1
  | Some lg =>
      suspend i (StartAwaitDB lg)
        (emit InitDB (emit (SinkInfo "[服务启动] 初始化数据库连接...") p1))
  end.

(** Lines 69-73. *)
Definition start_after_db (i : nat) (lg : Logger) (p : Proc) : Proc :=
  suspend i (StartAwaitMail lg)
    (emit InitMail
       (emit (SinkInfo "[服务启动] 数据库初始化成功") (emit GetSequelize p))).

(** Lines 85-111: the callbacks, in registration order. *)
Definition installed (h : Handle) (lg : Logger) : list Handler :=
  [HListening h lg; HServerError h lg;
   HSignal SIGINT; HSignal SIGTERM; HSignal SIGQUIT;
   HUncaught (Some lg); HUnhandled (Some lg)].

(** Lines 78-111: one synchronous stretch, no [await] in it. *)
Definition start_after_mail (lg : Logger) (p : Proc) : Proc :=
  let p1 :=
    emit (SinkInfo ("[服务启动] 启动HTTP服务器，监听端口 " +:+ PORT +:+ "...")) p in
  let p2 := emit (Listen PORT) p1 in
  match listen_throws w (trace p1) with
  | Some e => start_catch e p2
  | None =>
      let h := nextHandle p2 in
      fold_left (fun q hd => register hd q) (installed h lg) (assign_server p2)
  end.

(** *** The callbacks *)

(** Lines 80-81. *)
Definition on_listening (lg : Logger) (p : Proc) : Proc :=
  emit (SinkInfo ("Swagger文档地址：http://localhost:" +:+ PORT +:+ "/api-docs"))
    (emit (SinkInfo ("服务器启动成功 🚀，访问地址：http://localhost:" +:+ PORT)) p).

(** Lines 86-91. *)
Definition on_server_error (lg : Logger) (e : Error) (p : Proc) : Proc :=
  let p1 :=
    emit (SinkError ("[HTTP服务器启动失败] " +:+ message e) (Some (stack e))) p in
  let p2 :=
    if decide (code e = Some "EADDRINUSE")
    then emit (SinkError ("端口 " +:+ PORT +:+ " 已被占用，请更换端口后重试") None) p1
    else p1 in
  process_exit 1 p2.

(** Lines 101-102. *)
Definition on_uncaught (lg : option Logger) (e : Error) (p : Proc) : Proc :=
  gracefulShutdown "uncaughtException"
    (opt_error lg ("[未捕获异常] " +:+ message e) (Some (stack e)) p).

(** Line 106: [reason?.message || reason]. *)
Definition reason_shown (r : Reason) : string :=
  match reason_message r with
  | Some m => if String.eqb m "" then reason_text r else m
  | None => reason_text r
  end.

(** Lines 106-110. *)
Definition on_unhandled (lg : option Logger) (r : Reason) (p : Proc) : Proc :=
  gracefulShutdown "unhandledRejection"
    (opt_error lg ("[未处理Promise拒绝] " +:+ reason_shown r) (reason_stack r) p).

(** ** The event loop *)

(** The promise awaited in slot [i] settled with [r]. *)
Definition resume (i : nat) (t : Task) (r : option Error) (p : Proc) : Proc :=
  match t with
  | Finished => p
  | StartAwaitLogger =>
      match r with
      | None => start_after_logger i (suspend i Finished p)
      | Some e => start_catch e (suspend i Finished p)
      end
  | StartAwaitDB lg =>
      match r with
      | None => start_after_db i lg (suspend i Finished p)
      | Some e => start_catch e (suspend i Finished p)
      end
  | StartAwaitMail lg =>
      match r with
      | None => start_after_mail lg (suspend i Finished p)
      | Some e => start_catch e (suspend i Finished p)
      end
  | ShutAwaitServerClose =>
      match r with
      | None => shutdown_after_server i (suspend i Finished p)
      | Some e => shutdown_catch e (suspend i Finished p)
      end
  | ShutAwaitSequelizeClose =>
      match r with
      | None => shutdown_after_db (suspend i Finished p)
      | Some e => shutdown_catch e (suspend i Finished p)
      end
  end.

(** One registered callback looking at one event; callbacks are not run
    once [process.exit] was called. *)
Definition fire (ev : Event) (p : Proc) (hd : Handler) : Proc :=
  match exited p with
  | Some _ => p
  | None =>
      match hd, ev with
      | HListening h lg, EvListening h' =>
          if decide (h = h') then on_listening lg p else p
      | HServerError h lg, EvServerError h' e =>
          if decide (h = h') then on_server_error lg e p else p
      | HSignal s, EvSignal s' =>
          if decide (s = s') then gracefulShutdown (signal_name s) p else p
      | HUncaught lg, EvUncaught e => on_uncaught lg e p
      | HUnhandled lg, EvUnhandled r => on_unhandled lg r p
      | _, _ => p
      end
  end.

Definition listens (ev : Event) (hd : Handler) : bool :=
  match hd, ev with
  | HListening h _, EvListening h' => bool_decide (h = h')
  | HServerError h _, EvServerError h' _ => bool_decide (h = h')
  | HSignal s, EvSignal s' => bool_decide (s = s')
  | HUncaught _, EvUncaught _ => true
  | HUnhandled _, EvUnhandled _ => true
  | _, _ => false
  end.

(** The callbacks of an event run in registration order. *)
Definition dispatch (ev : Event) (p : Proc) : Proc :=
  fold_left (fire ev) (handlers p) p.

(** An event nobody subscribed to: a signal or a fault ends the process
    without any code of the program running; an event of a server that was
    never created does not occur. *)
Definition unsubscribed (ev : Event) (p : Proc) : Proc :=
  match ev with
  | EvSignal _ | EvUncaught _ | EvUnhandled _ => set_exited RuntimeDefault p
  | _ => p
  end.

Definition deliver (ev : Event) (p : Proc) : Proc :=
  if existsb (listens ev) (handlers p) then dispatch ev p else unsubscribed ev p.

Definition step (p : Proc) (ev : Event) : Proc :=
  match exited p with
  | Some _ => p
  | None =>
      match ev with
      | EvStart => startServer p
      | EvSettle i r =>
          match tasks p !! i with
          | Some t => resume i t r p
          | None => p
          end
      | EvListening h =>
          if existsb (listens ev) (handlers p)
          then dispatch ev (mark_listening h p)
          else p
      | _ => deliver ev p
      end
  end.

Definition run (p : Proc) (evs : list Event) : Proc := fold_left step evs p.

End Program.

(** ** Observations *)

(** The service accepts traffic: the process is alive and the server held in
    [serverInstance] is bound. *)
Definition Running (p : Proc) : Prop :=
  exited p = None /\ exists h, serverInstance p = Some h /\ h ∈ listening p.

Definition is_init_call (e : Effect) : bool :=
  match e with
  | InitLogger | InitDB | InitMail | Listen _ => true
  | _ => false
  end.

(** The initializer calls of a trace, in order. *)
Definition init_calls (tr : list Effect) : list Effect := filter is_init_call tr.

Definition is_start_task (t : Task) : bool :=
  match t with
  | StartAwaitLogger | StartAwaitDB _ | StartAwaitMail _ => true
  | _ => false
  end.

(** Initializers that were called and have not settled yet. *)
Definition inits_in_flight (p : Proc) : nat :=
  length (filter is_start_task (tasks p)).

Definition is_listen (e : Effect) : bool :=
  match e with Listen _ => true | _ => false end.

Definition is_server_close (e : Effect) : bool :=
  match e with ServerClose _ => true | _ => false end.

Definition is_sequelize_close (e : Effect) : bool :=
  match e with SequelizeClose => true | _ => false end.

Definition is_log (e : Effect) : bool :=
  match e with
  | SinkInfo _ | SinkError _ _ | ConsoleError _ _ => true
  | _ => false
  end.

Definition count (f : Effect -> bool) (tr : list Effect) : nat :=
  length (filter f tr).

(** What a runtime may throw for [logger.info] on a missing logger. *)
Definition sample_type_error : Error :=
  {| message := "Cannot read properties of undefined (reading 'info')";
     stack := "TypeError: Cannot read properties of undefined (reading 'info')";
     code := None |}.

(** A world in which every collaborator works. *)
Definition fair_world : World :=
  {| env_PORT := None;
     getLogger_ret := fun _ => Some SinkLogger;
     getSequelize_ret := fun _ => Some DbConnection;
     listen_throws := fun _ => None;
     no_logger_error := sample_type_error |}.

(** The three initializers settle one after the other. *)
Definition start_ok : list Event :=
  [EvStart; EvSettle 0 None; EvSettle 0 None; EvSettle 0 None].

Definition sample_error : Error :=
  {| message := "boom"; stack := "Error: boom"; code := None |}.

Definition addr_in_use : Error :=
  {| message := "listen EADDRINUSE: address already in use :::3000";
     stack := "Error: listen EADDRINUSE"; code := Some "EADDRINUSE" |}.

(** The state reached when start-up went through and the server is bound. *)
Definition running : Proc := run fair_world init (start_ok ++ [EvListening 0]).

(** A world whose [app.listen] throws. *)
Definition deaf_world : World :=
  {| env_PORT := None;
     getLogger_ret := fun _ => Some SinkLogger;
     getSequelize_ret := fun _ => Some DbConnection;
     listen_throws := fun _ => Some addr_in_use;
     no_logger_error := sample_type_error |}.

(** The service after a start that went through: alive, the server object
    stored, the callbacks of one [startServer] registered, and the
    module-level logger as line 20 left it. *)
Definition Serving (h : Handle) (lg : Logger) (p : Proc) : Prop :=
  exited p = None /\ serverInstance p = Some h /\ logger p = None /\
  handlers p = installed h lg.

Definition b2n (b : bool) : nat := if b then 1 else 0.

Definition ntasks (f : Task -> bool) (ts : list Task) : nat :=
  length (filter f ts).

Definition awaits_server_close (t : Task) : bool :=
  match t with ShutAwaitServerClose => true | _ => false end.

(** Every close of the persistence handle is matched by a close of the
    server that was requested earlier and has completed: the closes that are
    still awaited and the persistence closes together never outnumber the
    server closes.  Shutdown code only runs from callbacks, which exist only
    once the server object is stored. *)
Definition close_order (p : Proc) : Prop :=
  (is_Some (serverInstance p) \/ handlers p = []) /\
  count is_sequelize_close (trace p) + ntasks awaits_server_close (tasks p)
  <= count is_server_close (trace p).

(** The initializer calls of lines 63, 68, 73 and 79, in source order. *)
Definition startup_calls (w : World) : list Effect :=
  [InitLogger; InitDB; InitMail; Listen (PORT w)].

(** What has been called so far, given where [startServer] is suspended. *)
Definition startup_phase (w : World) (t0 : Task) (calls : list Effect) : Prop :=
  match t0 with
  | StartAwaitLogger => calls = [InitLogger]
  | StartAwaitDB _ => calls = [InitLogger; InitDB]
  | StartAwaitMail _ => calls = [InitLogger; InitDB; InitMail]
  | Finished => calls `prefix_of` startup_calls w
  | _ => False
  end.

(** The process after one call of [startServer]: that call sits in slot 0,
    no other slot holds a start-up. *)
Definition single_start (w : World) (p : Proc) : Prop :=
  exists t0 rest,
    tasks p = t0 :: rest /\
    Forall (fun t => is_start_task t = false) rest /\
    startup_phase w t0 (init_calls (trace p)).

(** ** Further observations on the entry point *)

Definition is_exit (e : Effect) : bool :=
  match e with Exit _ => true | _ => false end.

Definition is_shutdown_task (t : Task) : bool :=
  match t with
  | ShutAwaitServerClose | ShutAwaitSequelizeClose => true
  | _ => false
  end.

(** The callbacks of the first [n] servers, in registration order. *)
Definition all_installed (n : nat) : list Handler :=
  flat_map (fun h => installed h SinkLogger) (seq 0 n).

(** The server created last, when [n] servers were created. *)
Definition latest_server (n : nat) : option Handle :=
  match n with
  | 0 => None
  | S k => Some k
  end.

(** Callbacks are registered in blocks of one start, right after the server
    of that start was stored. *)
Definition handlers_shape (p : Proc) : Prop :=
  handlers p = all_installed (nextHandle p) /\
  serverInstance p = latest_server (nextHandle p).

(** [process.exit] is not called in a live process, is called at most once,
    and is the last thing a process that ended through it did. *)
Definition exit_once (p : Proc) : Prop :=
  (exited p = None -> count is_exit (trace p) = 0) /\
  count is_exit (trace p) <= 1 /\
  (forall c, exited p = Some (ExitCode c) ->
     last (trace p) = Some (Exit c) /\ (c = 0 \/ c = 1)%Z).

(** Before a server exists nothing was released and no shutdown is
    suspended. *)
Definition quiet_before_listen (p : Proc) : Prop :=
  nextHandle p = 0 ->
  count is_server_close (trace p) = 0 /\
  count is_sequelize_close (trace p) = 0 /\
  ntasks is_shutdown_task (tasks p) = 0.

(** A shutdown that is under way, or that ended the process with code 0,
    has asked a server to close. *)
Definition closed_before_clean_exit (p : Proc) : Prop :=
  (is_Some (serverInstance p) \/ handlers p = []) /\
  (0 < ntasks is_shutdown_task (tasks p) \/ exited p = Some (ExitCode 0) ->
   0 < count is_server_close (trace p)).


(** * Route listing of the application module [app.js]

    [printRoutes] walks the layer stack of an Express application or router
    and writes one console line per route.  Strings are byte strings: the
    characters the code tests for are ASCII, so their bytes stand for
    themselves in UTF-8. *)

(** A line written by [console.log] or [console.warn]. *)
Inductive ConsoleLine : Type :=
| ConsoleLog (s : string)
| ConsoleWarn (s : string).

(** [Array.prototype.join]. *)
Fixpoint join (sep : string) (l : list string) : string :=
  match l with
  | [] => ""
  | [x] => x
  | x :: l' => x +:+ sep +:+ join sep l'
  end.

(** [route.path] is what was given to [app.get], [router.post], ...: a
    string, a regular expression, or an array of such. *)
Local Unset Elimination Schemes.
Inductive RoutePath : Type :=
| PathString (s : string)
| PathRegExp (source flags : string)
| PathArray (ps : list RoutePath).
Local Set Elimination Schemes.

(** The text a template literal makes of a path: the string itself, a
    regular expression between slashes with its flags, the elements of an
    array joined by commas. *)
Fixpoint path_text (p : RoutePath) : string :=
  match p with
  | PathString s => s
  | PathRegExp source flags => "/" +:+ source +:+ "/" +:+ flags
  | PathArray ps => join "," (map path_text ps)
  end.

(** [layer.route]: the keys of [route.methods] in insertion order, and
    [route.path]. *)
Record Route : Type := mkRoute {
  route_methods : list string;
  route_path : RoutePath
}.

(** A layer of a stack, and an application or router object.  Of a layer
    the code reads [route], [name], [handle] and [regexp.source]; of a
    target it reads [_router] and [stack].  A field is [None] when it is
    missing or [null]. *)
Local Unset Elimination Schemes.
Inductive Layer : Type :=
| mkLayer (layer_route : option Route) (layer_name : string)
          (layer_handle : option Target) (layer_regexp : option string)
with Target : Type :=
| mkTarget (target_router : option Target)
           (target_stack : option (list Layer)).
Local Set Elimination Schemes.

(** The string built-ins of the runtime that [printRoutes] calls and whose
    meaning depends on Unicode tables: they are a parameter. *)
Record JsString : Type := mkJsString {
  toUpperCase : string -> string;          (* String.prototype.toUpperCase *)
  padEnd : string -> nat -> string;        (* String.prototype.padEnd *)
  trim : string -> string                  (* String.prototype.trim *)
}.

(** The characters named by the alternatives of the pattern on line 65. *)
Definition is_regexp_special (c : ascii) : bool :=
  Ascii.eqb c "/" || Ascii.eqb c "^" || Ascii.eqb c "$" || Ascii.eqb c "\"
  || Ascii.eqb c "+" || Ascii.eqb c "?".

(** Line 65: [.replace(/\\\/|\/|\^|\$|\\|\+|\?/g, '')].  At each position
    the alternatives are tried from the left: backslash followed by slash
    first, then the single characters; what matches is dropped and the scan
    goes on behind it, what does not match is kept. *)
Fixpoint strip_regexp (s : string) : string :=
  match s with
  | EmptyString => EmptyString
  | String c rest =>
      match rest with
      | String c2 rest' =>
          if Ascii.eqb c "\" && Ascii.eqb c2 "/" then strip_regexp rest'
          else if is_regexp_special c then strip_regexp rest
          else String c (strip_regexp rest)
      | EmptyString =>
          if is_regexp_special c then EmptyString else String c EmptyString
      end
  end.

(** The characters of [s] that are not special, in order. *)
Fixpoint keep_plain (s : string) : string :=
  match s with
  | EmptyString => EmptyString
  | String c rest =>
      if is_regexp_special c then keep_plain rest
      else String c (keep_plain rest)
  end.

(** [s] without the prefix [pat], when it starts with it. *)
Fixpoint strip_prefix (pat s : string) : option string :=
  match pat, s with
  | EmptyString, _ => Some s
  | String a pat', String b s' =>
      if Ascii.eqb a b then strip_prefix pat' s' else None
  | String _ _, EmptyString => None
  end.

(** [s.replace(pat, rep)] for a string pattern: the first occurrence only. *)
Fixpoint replace_first (pat rep s : string) : string :=
  match strip_prefix pat s with
  | Some rest => rep +:+ rest
  | None =>
      match s with
      | EmptyString => EmptyString
      | String c s' => String c (replace_first pat rep s')
      end
  end.

Section PrintRoutes.

Variable js : JsString.

(** Lines 62-67: the path prefix read off [layer.regexp.source]. *)
Definition mount_prefix (source : string) : string :=
  let newBase := if String.eqb source "" then "" else source in
  trim js (replace_first "undefined" "" (strip_regexp newBase)).

(** Line 69. *)
Definition child_base (basePath source : string) : string :=
  let newBase := mount_prefix source in
  basePath +:+ (if String.eqb newBase "" then "" else "/" +:+ newBase).

(** Lines 54-56. *)
Definition route_line (r : Route) (basePath : string) : ConsoleLine :=
  let methods := toUpperCase js (join ", " (route_methods r)) in
  let path := basePath +:+ path_text (route_path r) in
  ConsoleLog ("[路由] " +:+ padEnd js methods 8 +:+ " → " +:+ path).

(** Lines 51-73: the body of the [forEach]; [rec] is [printRoutes]. *)
Definition print_layer (rec : Target -> string -> list ConsoleLine)
    (basePath : string) (layer : Layer) : list ConsoleLine :=
  match layer with
  | mkLayer route name handle regexp =>
      match route with
      | Some r => [route_line r basePath]
      | None =>
          if String.eqb name "router" then
            match handle, regexp with
            | Some h, Some source => rec h (child_base basePath source)
            | _, _ => []
            end
          else []
      end
  end.

(** Lines 43-73: [printRoutes] on an object. *)
Fixpoint printRoutes_from (target : Target) (basePath : string)
    {struct target} : list ConsoleLine :=
  match target with
  | mkTarget r st =>
      match (match r with Some (mkTarget _ st') => st' | None => st end) with
      | None => [ConsoleWarn "[打印路由] 未找到路由栈（可能路由未挂载）"]
      | Some stack => flat_map (print_layer printRoutes_from basePath) stack
      end
  end.

(** Lines 35-74.  The call of line 88 is [printRoutes (Some app) ""]. *)
Definition printRoutes (target : option Target) (basePath : string)
    : list ConsoleLine :=
  match target with
  | None => [ConsoleWarn "[打印路由] 无效的参数：target为空"]
  | Some t => printRoutes_from t basePath
  end.

End PrintRoutes.

(** A layer that [printRoutes] looks at: a route or a mounted router. *)
Definition is_listed (layer : Layer) : bool :=
  match layer with
  | mkLayer (Some _) _ _ _ => true
  | mkLayer None name (Some _) (Some _) => String.eqb name "router"
  | _ => false
  end.

(** The built-ins on ASCII text, to run examples. *)
Definition ascii_upper (c : ascii) : ascii :=
  let n := nat_of_ascii c in
  if (97 <=? n)%nat && (n <=? 122)%nat then ascii_of_nat (n - 32) else c.

Fixpoint string_map (f : ascii -> ascii) (s : string) : string :=
  match s with
  | EmptyString => EmptyString
  | String c rest => String (f c) (string_map f rest)
  end.

Fixpoint spaces (n : nat) : string :=
  match n with
  | 0 => ""
  | S k => String " " (spaces k)
  end.

Fixpoint drop_spaces (s : string) : string :=
  match s with
  | String " " rest => drop_spaces rest
  | _ => s
  end.

Definition ascii_js : JsString :=
  {| toUpperCase := string_map ascii_upper;
     padEnd := fun s n => s +:+ spaces (n - String.length s);
     trim := fun s =>
       String.rev (drop_spaces (String.rev (drop_spaces s))) |}.


(** * Proofs *)

(** ** The event loop after [process.exit] *)

Lemma step_exited w p ev : is_Some (exited p) -> step w p ev = p.
Proof. intros [x Hx]. unfold step. by rewrite Hx. Qed.

Lemma run_exited w evs : forall p, is_Some (exited p) -> run w p evs = p.
Proof.
  induction evs as [|ev evs IH]; intros p Hp; [done|].
  simpl. rewrite step_exited; auto.
Qed.

Lemma steps_exited w evs p :
  is_Some (exited p) -> fold_left (step w) evs p = p.
Proof. apply run_exited. Qed.

Lemma run_app w evs1 evs2 p : run w p (evs1 ++ evs2) = run w (run w p evs1) evs2.
Proof. unfold run. apply fold_left_app. Qed.

Lemma fire_exited w ev p hd : is_Some (exited p) -> fire w ev p hd = p.
Proof. intros [x Hx]. unfold fire. by rewrite Hx. Qed.

(** ** Counting in traces and task lists *)

Lemma length_filter_cons {A} (f : A -> bool) x l :
  length (filter f (x :: l)) = b2n (f x) + length (filter f l).
Proof.
  rewrite filter_cons. unfold b2n.
  destruct (f x) eqn:E; case_decide as Hd; simpl; auto.
  - exfalso. apply Hd. exact I.
  - destruct Hd.
Qed.

Lemma length_filter_snoc {A} (f : A -> bool) l x :
  length (filter f (l ++ [x])) = length (filter f l) + b2n (f x).
Proof. rewrite filter_app, length_app, length_filter_cons. simpl. lia. Qed.

Lemma count_snoc f tr e : count f (tr ++ [e]) = count f tr + b2n (f e).
Proof. apply length_filter_snoc. Qed.

Lemma count_app f tr1 tr2 : count f (tr1 ++ tr2) = count f tr1 + count f tr2.
Proof. unfold count. by rewrite filter_app, length_app. Qed.

Lemma ntasks_snoc f ts t : ntasks f (ts ++ [t]) = ntasks f ts + b2n (f t).
Proof. apply length_filter_snoc. Qed.

Lemma ntasks_cons f t ts : ntasks f (t :: ts) = b2n (f t) + ntasks f ts.
Proof. apply length_filter_cons. Qed.

Lemma ntasks_insert f ts : forall i x y,
  ts !! i = Some x ->
  ntasks f (<[i := y]> ts) + b2n (f x) = ntasks f ts + b2n (f y).
Proof.
  induction ts as [|t ts IH]; intros i x y Hi; [done|].
  destruct i as [|i]; simpl in *.
  - injection Hi as ->. rewrite !ntasks_cons. lia.
  - rewrite !ntasks_cons. specialize (IH i x y Hi). lia.
Qed.

(** ** Single steps of a serving process *)

Lemma Serving_emit h lg p e : Serving h lg p -> Serving h lg (emit e p).
Proof. unfold Serving. by destruct p. Qed.

Lemma Serving_spawn h lg p t : Serving h lg p -> Serving h lg (spawn t p).
Proof. unfold Serving. by destruct p. Qed.

(** A subscribed signal runs [gracefulShutdown] up to its first [await]:
    the close of the server is requested, nothing is logged. *)
Lemma step_signal_serving w h lg p s :
  Serving h lg p ->
  step w p (EvSignal s) = spawn ShutAwaitServerClose (emit (ServerClose h) p).
Proof.
  destruct p as [si ml hs ts ls nh tr ex]. unfold Serving. simpl.
  intros (-> & -> & -> & ->). by destruct s.
Qed.

(** The fault callbacks log through the logger they captured. *)
Lemma step_uncaught_serving w h lg p e :
  Serving h lg p ->
  step w p (EvUncaught e) =
  spawn ShutAwaitServerClose
    (emit (ServerClose h)
       (emit (SinkError ("[未捕获异常] " +:+ message e) (Some (stack e))) p)).
Proof.
  destruct p as [si ml hs ts ls nh tr ex]. unfold Serving. simpl.
  by intros (-> & -> & -> & ->).
Qed.

Lemma step_unhandled_serving w h lg p r :
  Serving h lg p ->
  step w p (EvUnhandled r) =
  spawn ShutAwaitServerClose
    (emit (ServerClose h)
       (emit (SinkError ("[未处理Promise拒绝] " +:+ reason_shown r)
                (reason_stack r)) p)).
Proof.
  destruct p as [si ml hs ts ls nh tr ex]. unfold Serving. simpl.
  by intros (-> & -> & -> & ->).
Qed.

Lemma fire_not_listening w ev p hd : listens ev hd = false -> fire w ev p hd = p.
Proof.
  unfold fire. destruct (exited p); [done|].
  destruct hd, ev; simpl; try done; intros Hl;
    case_decide; try done; subst; by rewrite bool_decide_true in Hl.
Qed.

Lemma on_server_error_exited w lg e p :
  exited (on_server_error w lg e p) = Some (ExitCode 1).
Proof. done. Qed.

(** The 'error' callback of the server. *)
Lemma step_server_error w h lg p e :
  exited p = None -> handlers p = installed h lg ->
  step w p (EvServerError h e) = on_server_error w lg e p.
Proof.
  intros Hex Hh. unfold step, deliver, dispatch. rewrite Hex, Hh.
  cbn [existsb installed listens]. rewrite bool_decide_true by done.
  cbn [orb]. unfold installed. cbn [fold_left].
  rewrite (fire_not_listening _ _ p) by done.
  assert (fire w (EvServerError h e) p (HServerError h lg)
          = on_server_error w lg e p) as ->.
  { unfold fire. rewrite Hex. by rewrite decide_True. }
  rewrite !fire_exited; auto; by rewrite ?on_server_error_exited.
Qed.

Lemma step_start w p : exited p = None -> step w p EvStart = startServer p.
Proof. intros H. unfold step. by rewrite H. Qed.

Lemma step_settle w p i t r :
  exited p = None -> tasks p !! i = Some t ->
  step w p (EvSettle i r) = resume w i t r p.
Proof. intros H Ht. unfold step. by rewrite H, Ht. Qed.

(** Resume the innermost suspended call the goal talks about. *)
Ltac settle t :=
  match goal with
  | |- context [step ?w ?p (EvSettle ?i ?r)] =>
      rewrite (step_settle w p i t r) by reflexivity
  end;
  cbn [resume].

(** A start whose three initializers settle, in a world that hands out the
    logger and whose [listen] returns. *)
Lemma start_ok_serving w lg :
  (forall tr, getLogger_ret w tr = Some lg) ->
  (forall tr, listen_throws w tr = None) ->
  Serving 0 lg (run w init start_ok).
Proof.
  intros Hlg Hl. unfold run, start_ok. cbn [fold_left].
  rewrite step_start by done.
  settle StartAwaitLogger. unfold start_after_logger. rewrite Hlg.
  settle (StartAwaitDB lg). unfold start_after_db.
  settle (StartAwaitMail lg). unfold start_after_mail. rewrite Hl.
  by unfold Serving.
Qed.

(** ** What the callbacks leave alone *)

Ltac unfold_program :=
  unfold on_unhandled, on_uncaught, on_server_error, on_listening,
    start_after_mail, start_after_db, start_after_logger, startServer,
    gracefulShutdown, shutdown_after_server, shutdown_after_db, shutdown_db,
    shutdown_finish, shutdown_catch, start_catch, process_exit,
    opt_info, opt_error, spawn, suspend.

Ltac frame_cases :=
  unfold_program; repeat case_match;
  cbn [serverInstance logger handlers tasks listening nextHandle trace exited
       emit set_tasks set_exited assign_server register mark_listening
       fold_left installed];
  try reflexivity; try assumption.

Lemma gracefulShutdown_handlers w s p :
  handlers (gracefulShutdown w s p) = handlers p.
Proof. frame_cases. Qed.

Lemma fire_handlers w ev p hd : handlers (fire w ev p hd) = handlers p.
Proof.
  unfold fire. destruct (exited p); [done|].
  destruct hd, ev; try done; try case_decide; try done;
    unfold on_uncaught, on_unhandled; rewrite ?gracefulShutdown_handlers;
    frame_cases.
Qed.

(** ** Invariants of the event loop *)

Section Invariant.

Variable w : World.
Variable I : Proc -> Prop.
Variable ev : Event.

Hypothesis I_start :
  ev = EvStart -> forall p, I p -> exited p = None -> I (startServer p).
Hypothesis I_resume : forall p i t r,
  I p -> exited p = None -> tasks p !! i = Some t -> I (resume w i t r p).
Hypothesis I_default : forall p, I p -> I (set_exited RuntimeDefault p).
Hypothesis I_listening : forall p h, I p -> I (mark_listening h p).
Hypothesis I_fire : forall p hd,
  I p -> exited p = None -> handlers p <> [] -> I (fire w ev p hd).

Lemma fold_fire_invariant hs : forall p,
  handlers p <> [] -> I p -> I (fold_left (fire w ev) hs p).
Proof.
  induction hs as [|hd hs IH]; intros p Hne Hp; [done|].
  cbn [fold_left]. apply IH.
  - by rewrite fire_handlers.
  - destruct (exited p) eqn:Hex.
    + rewrite fire_exited; [done | by rewrite Hex].
    + by apply I_fire.
Qed.

Lemma dispatch_invariant p :
  I p -> handlers p <> [] -> I (dispatch w ev p).
Proof. intros Hp Hne. unfold dispatch. by apply fold_fire_invariant. Qed.

Lemma step_invariant p : I p -> I (step w p ev).
Proof.
  intros Hp. unfold step. destruct (exited p) eqn:Hex; [done|].
  assert (forall q, I q -> existsb (listens ev) (handlers q) = true ->
                    I (dispatch w ev q)) as Hd.
  { intros q Hq Hl. apply dispatch_invariant; [done|].
    intros E. by rewrite E in Hl. }
  assert (I (deliver w ev p)) as Hdel.
  { unfold deliver. destruct (existsb _ _) eqn:Hl; [by apply Hd|].
    unfold unsubscribed. destruct ev; auto. }
  destruct ev eqn:Eev; try exact Hdel.
  - by apply I_start.
  - destruct (tasks p !! i) eqn:Ht; [|done]. by apply I_resume.
  - destruct (existsb _ _) eqn:Hl; [|done].
    apply Hd; [by apply I_listening | done].
Qed.

End Invariant.

Lemma run_invariant w (I : Proc -> Prop) evs :
  (forall p ev, ev ∈ evs -> I p -> I (step w p ev)) ->
  forall p, I p -> I (run w p evs).
Proof.
  induction evs as [|ev evs IH]; intros Hstep p Hp; [done|].
  cbn [run fold_left]. apply IH.
  - intros q ev' Hin. apply Hstep. by right.
  - apply Hstep; [by left | done].
Qed.

(** *** The module-level [logger] *)

Lemma step_logger w p ev : logger (step w p ev) = logger p.
Proof.
  set (I := fun q => logger q = logger p).
  apply (step_invariant w I ev); subst I; cbn beta; try done.
  - intros q i t r <- _ _. destruct t, r; cbn [resume]; frame_cases.
  - intros q hd <- Hex _. unfold fire. rewrite Hex.
    destruct hd, ev; try done; try case_decide; try done; frame_cases.
Qed.

Lemma run_logger w evs : forall p, logger (run w p evs) = logger p.
Proof.
  induction evs as [|ev evs IH]; intros p; [done|].
  etrans; [apply (IH (step w p ev)) | apply step_logger].
Qed.

(** *** Order of the two release steps *)

Ltac count_arith :=
  rewrite ?list_insert_insert_eq;
  rewrite ?count_snoc, ?ntasks_snoc;
  cbn [b2n is_server_close is_sequelize_close awaits_server_close];
  try lia.

Lemma step_close_order w p ev : close_order p -> close_order (step w p ev).
Proof.
  apply (step_invariant w close_order ev); unfold close_order.
  - intros _ q [Hs Hc] _. frame_cases. split; [done|]. count_arith.
  - intros q i t r [Hs Hc] _ Ht.
    pose proof (ntasks_insert awaits_server_close _ i t Finished Ht) as Hf.
    pose proof (ntasks_insert awaits_server_close _ i t
                  ShutAwaitSequelizeClose Ht) as Hq.
    pose proof (ntasks_insert awaits_server_close _ i t
                  (StartAwaitDB SinkLogger) Ht) as Hdb.
    pose proof (ntasks_insert awaits_server_close _ i t
                  (StartAwaitMail SinkLogger) Ht) as Hm.
    cbn [b2n awaits_server_close] in Hf, Hq, Hdb, Hm.
    destruct t, r; cbn [resume]; frame_cases;
      cbn [b2n awaits_server_close] in *;
      (split; [by eauto|]); count_arith.
    all: try match goal with l : Logger |- _ => destruct l end; try lia.
  - intros q [Hs Hc]. split; [done|]. done.
  - intros q h [Hs Hc]. split; [done|]. done.
  - intros q hd [Hs Hc] Hex Hne.
    destruct Hs as [[h Hh]|Hnil]; [|done].
    unfold fire. rewrite Hex.
    destruct hd, ev; try (split; by eauto); try case_decide;
      try (split; by eauto); unfold_program; rewrite ?Hh;
      repeat case_match;
      cbn [serverInstance logger handlers tasks trace emit set_tasks
           set_exited] in *;
      try congruence; (split; [by eauto|]); count_arith.
Qed.

Lemma close_order_init : close_order init.
Proof. unfold close_order. split; [by right|]. done. Qed.

Lemma run_close_order w evs : forall p, close_order p -> close_order (run w p evs).
Proof.
  apply run_invariant. intros p ev _. apply step_close_order.
Qed.

(** *** One start-up at a time *)

Lemma init_calls_snoc tr e :
  init_calls (tr ++ [e]) = init_calls tr ++ (if is_init_call e then [e] else []).
Proof.
  unfold init_calls. rewrite filter_app. f_equal.
  rewrite filter_cons, filter_nil.
  destruct (is_init_call e); case_decide as Hd; simpl; auto.
  - exfalso. apply Hd. exact I.
  - destruct Hd.
Qed.

Ltac proc_cbn :=
  cbn [serverInstance logger handlers tasks listening nextHandle trace exited
       emit set_tasks set_exited assign_server register mark_listening
       fold_left installed insert list_insert] in *.

Ltac single_start_goal :=
  unfold single_start; proc_cbn; cbn [app];
  eexists _, _; split; [reflexivity|]; split;
  [ repeat first [ assumption | apply Forall_insert | apply Forall_app_2
                 | apply Forall_cons_2 | apply Forall_nil_2 | reflexivity ]
  | cbn [startup_phase] in *; rewrite ?init_calls_snoc;
    cbn [is_init_call app]; rewrite ?app_nil_r; try assumption;
    try match goal with H : init_calls _ = _ |- _ => rewrite H end;
    try reflexivity; try (eexists; reflexivity) ].

Lemma step_single_start w p ev :
  ev <> EvStart -> single_start w p -> single_start w (step w p ev).
Proof.
  intros Hev. apply (step_invariant w (single_start w) ev); [done|..].
  - intros q i t r (t0 & rest & Ht & Hf & Hph) Hex Hi.
    destruct q as [si ml hs ts ls nh tr ex]. simpl in Ht, Hph, Hex, Hi.
    subst ts ex. destruct i as [|j]; simpl in Hi.
    + injection Hi as <-.
      destruct t0, r; try done; cbn [resume]; frame_cases;
        single_start_goal.
    + assert (is_start_task t = false) as Hns.
      { eapply (proj1 (Forall_lookup _ _) Hf); eauto. }
      destruct t, r; try done; cbn [resume]; frame_cases;
        single_start_goal.
  - intros q (t0 & rest & Ht & Hf & Hph).
    destruct q as [si ml hs ts ls nh tr ex]. simpl in Ht, Hph. subst ts.
    single_start_goal.
  - intros q h (t0 & rest & Ht & Hf & Hph).
    destruct q as [si ml hs ts ls nh tr ex]. simpl in Ht, Hph. subst ts.
    single_start_goal.
  - intros q hd (t0 & rest & Ht & Hf & Hph) Hex _.
    destruct q as [si ml hs ts ls nh tr ex]. simpl in Ht, Hph, Hex.
    subst ts ex. unfold fire. cbn [exited].
    destruct hd, ev; try case_decide; frame_cases; single_start_goal.
Qed.

Lemma startServer_single_start w : single_start w (startServer init).
Proof. single_start_goal. Qed.

Lemma run_single_start w evs :
  Forall (fun ev => ev <> EvStart) evs ->
  single_start w (run w init (EvStart :: evs)).
Proof.
  intros Hevs. cbn [run fold_left]. rewrite step_start by done.
  apply (run_invariant w (single_start w)).
  - intros p ev Hin. apply step_single_start.
    by apply (proj1 (Forall_forall _ _) Hevs).
  - apply startServer_single_start.
Qed.

Lemma single_start_in_flight w p : single_start w p -> inits_in_flight p <= 1.
Proof.
  intros (t0 & rest & Ht & Hf & _). unfold inits_in_flight. rewrite Ht.
  rewrite length_filter_cons.
  assert (length (filter is_start_task rest) = 0) as ->.
  { clear Ht. induction Hf as [|t ts Hnt _ IH]; [done|].
    rewrite length_filter_cons, Hnt, IH. done. }
  unfold b2n. destruct (is_start_task t0); lia.
Qed.

Lemma single_start_calls w p :
  single_start w p -> init_calls (trace p) `prefix_of` startup_calls w.
Proof.
  intros (t0 & rest & _ & _ & Hph).
  destruct t0; cbn [startup_phase] in Hph; try done; rewrite Hph;
    eexists; reflexivity.
Qed.

(** ** Start-up *)

Ltac with_logger H :=
  unfold start_after_logger;
  match goal with
  | |- context [getLogger_ret ?w ?tr] => change tr with [InitLogger]
  end;
  rewrite H.

(** The first [oks] initializers settle, the next one rejects with [e]. *)
Lemma start_failure w lg oks e :
  getLogger_ret w [InitLogger] = Some lg -> oks < 3 ->
  let q := run w init
             (EvStart :: repeat (EvSettle 0 None) oks ++ [EvSettle 0 (Some e)]) in
  exited q = Some (ExitCode 1) /\
  exists tr,
    trace q = tr ++ [ConsoleError ("[服务启动失败] " +:+ message e) (stack e);
                     Exit 1] /\
    init_calls tr = take (S oks) (startup_calls w).
Proof.
  intros Hlg Hoks.
  destruct oks as [|[|[|oks]]]; [| | |lia];
    cbn [repeat app run fold_left]; rewrite (step_start w init) by done.
  - settle StartAwaitLogger. split; [done|].
    by exists [InitLogger].
  - settle StartAwaitLogger. with_logger Hlg.
    settle (StartAwaitDB lg). split; [done|].
    by eexists [_; _; _; _].
  - settle StartAwaitLogger. with_logger Hlg.
    settle (StartAwaitDB lg). unfold start_after_db.
    settle (StartAwaitMail lg). split; [done|].
    by eexists [_; _; _; _; _; _; _].
Qed.

(** All three initializers settle: [listen] is called, whatever it does. *)
Lemma start_ok_calls w lg :
  getLogger_ret w [InitLogger] = Some lg ->
  init_calls (trace (run w init start_ok)) = startup_calls w.
Proof.
  intros Hlg. unfold start_ok. cbn [run fold_left].
  rewrite (step_start w init) by done.
  settle StartAwaitLogger. with_logger Hlg.
  settle (StartAwaitDB lg). unfold start_after_db.
  settle (StartAwaitMail lg). unfold start_after_mail.
  by destruct (listen_throws w _).
Qed.

(** C1: [startServer] calls the initializers in the order logger,
    persistence, messaging transport, listener bind, each one only after
    the one before it has settled (at no point of any execution is more than
    one of them in flight, and the calls made so far are always an initial
    stretch of that order); when all three settle the bind is called; when
    one of them rejects, the failure is written to the console, the process
    exits with code 1, and [listen] is never called. *)
Theorem startServer_sequential w lg evs oks e evs' :
  getLogger_ret w [InitLogger] = Some lg ->
  Forall (fun ev => ev <> EvStart) evs ->
  oks < 3 ->
  (let p := run w init (EvStart :: evs) in
   init_calls (trace p) `prefix_of` startup_calls w /\
   inits_in_flight p <= 1) /\
  init_calls (trace (run w init start_ok)) = startup_calls w /\
  (let q := run w init
              (EvStart :: repeat (EvSettle 0 None) oks
                 ++ [EvSettle 0 (Some e)] ++ evs') in
   exited q = Some (ExitCode 1) /\
   count is_listen (trace q) = 0 /\
   exists tr,
     trace q = tr ++ [ConsoleError ("[服务启动失败] " +:+ message e) (stack e);
                      Exit 1] /\
     init_calls tr = take (S oks) (startup_calls w)).
Proof.
  intros Hlg Hevs Hoks. split; [|split].
  - pose proof (run_single_start w evs Hevs) as Hs. split.
    + by apply single_start_calls.
    + by eapply single_start_in_flight.
  - by eapply start_ok_calls.
  - cbv zeta. rewrite app_assoc, app_comm_cons, run_app.
    destruct (start_failure w lg oks e Hlg Hoks) as (Hex & tr & Htr & Hcalls).
    rewrite run_exited by (by rewrite Hex).
    split; [done|]. split; [|by exists tr].
    rewrite Htr. rewrite count_app. 
    assert (count is_listen tr = 0) as ->.
    { assert (count is_listen tr = count is_listen (init_calls tr)) as ->.
      { unfold count, init_calls. clear.
        induction tr as [|x tr IH]; [done|].
        rewrite length_filter_cons, IH, (filter_cons is_init_call).
        destruct x; case_decide as Hd; simpl in *; try done;
          try (exfalso; apply Hd; exact I). }
      rewrite Hcalls. by destruct oks as [|[|[|oks]]]; [| | |lia]. }
    done.
Qed.

Lemma startServer_sequential_witness :
  getLogger_ret fair_world [InitLogger] = Some SinkLogger /\
  Forall (fun ev => ev <> EvStart) [EvSettle 0 None; EvSignal SIGINT] /\
  1 < 3 /\
  exited (run fair_world init
            (EvStart :: repeat (EvSettle 0 None) 1
               ++ [EvSettle 0 (Some sample_error)] ++ [EvSignal SIGINT]))
  = Some (ExitCode 1).
Proof.
  assert (Forall (fun ev => ev <> EvStart) [EvSettle 0 None; EvSignal SIGINT])
    as Hevs by (repeat constructor; discriminate).
  split; [reflexivity|]. split; [exact Hevs|]. split; [lia|].
  apply (startServer_sequential fair_world SinkLogger
           [EvSettle 0 None; EvSignal SIGINT] 1 sample_error [EvSignal SIGINT]
           eq_refl Hevs).
  lia.
Defined.

(** ** Signals while serving *)

(** C2, as stated, fails: a second signal starts a second execution of the
    shutdown sequence, which asks the server to close once more. *)
Lemma second_signal_not_ignored :
  trace (run fair_world running [EvSignal SIGINT; EvSignal SIGTERM])
  <> trace (run fair_world running [EvSignal SIGINT]) /\
  count is_server_close
    (trace (run fair_world running [EvSignal SIGINT; EvSignal SIGTERM])) = 2.
Proof.
  split; [|by vm_compute].
  intros H. apply (f_equal length) in H. vm_compute in H. discriminate.
Qed.

(** Signals delivered to a serving process leave it serving. *)
Lemma signals_serving w h lg sigs : forall p,
  Serving h lg p ->
  let q := run w p (map EvSignal sigs) in
  Serving h lg q /\
  trace q = trace p ++ map (fun _ => ServerClose h) sigs /\
  tasks q = tasks p ++ map (fun _ => ShutAwaitServerClose) sigs.
Proof.
  induction sigs as [|s sigs IH]; intros p Hp; cbv zeta.
  - cbn [map run fold_left]. by rewrite !app_nil_r.
  - cbn [map run fold_left]. rewrite (step_signal_serving w h lg p s Hp).
    destruct (IH (spawn ShutAwaitServerClose (emit (ServerClose h) p)))
      as (Hs & Htr & Hts).
    { by apply Serving_spawn, Serving_emit. }
    cbv zeta in Hs, Htr, Hts. unfold run in Hs, Htr, Hts.
    split; [exact Hs|]. rewrite Htr, Hts.
    cbn [trace tasks spawn emit set_tasks]. by rewrite <- !app_assoc.
Qed.

(** C2, amended: [gracefulShutdown] has no guard.  Every termination signal
    delivered to a serving process starts its own execution of the shutdown
    sequence: each one calls the close of the server and suspends, so the
    signals that arrive before a close completes produce as many close
    requests and as many suspended shutdowns.  Any one of them that is
    resumed ends the process: with exit code 1 when its server close
    failed, with exit code 0 when the close succeeded and there is no
    persistence handle, and otherwise with the exit code its persistence
    close decides (1 on failure, 0 on success); after the exit none of the
    others runs. *)
Theorem each_signal_starts_a_shutdown w h lg sigs : forall p,
  Serving h lg p ->
  let q := run w p (map EvSignal sigs) in
  trace q = trace p ++ map (fun _ => ServerClose h) sigs /\
  tasks q = tasks p ++ map (fun _ => ShutAwaitServerClose) sigs /\
  exited q = None /\
  (forall j r r' evs, j < length sigs ->
     let i := length (tasks p) + j in
     let q1 := step w q (EvSettle i r) in
     let q2 := step w q1 (EvSettle i r') in
     match r, getSequelize_ret w (trace q) with
     | Some _, _ => exited q1 = Some (ExitCode 1) /\ run w q1 evs = q1
     | None, None => exited q1 = Some (ExitCode 0) /\ run w q1 evs = q1
     | None, Some _ =>
         exited q1 = None /\
         exited q2
         = Some (ExitCode (match r' with Some _ => 1 | None => 0 end)) /\
         run w q2 evs = q2
     end).
Proof.
  intros p Hp. cbv zeta.
  destruct (signals_serving w h lg sigs p Hp) as (Hq & Htr & Hts).
  cbv zeta in Hq, Htr, Hts.
  set (q := run w p (map EvSignal sigs)) in *.
  destruct Hq as (Hex & Hsi & Hml & Hh).
  split; [done|]. split; [done|]. split; [done|].
  intros j r r' evs Hj.
  assert (tasks q !! (length (tasks p) + j) = Some ShutAwaitServerClose) as Ht.
  { rewrite Hts, lookup_app_r by lia.
    replace (length (tasks p) + j - length (tasks p)) with j by lia.
    rewrite list_lookup_fmap.
    destruct (lookup_lt_is_Some_2 sigs j Hj) as [s ->]. done. }
  set (i := length (tasks p) + j) in *.
  rewrite (step_settle w q i _ r Hex Ht). cbn [resume].
  destruct r as [e|].
  { split; [done|]. by apply run_exited. }
  unfold shutdown_after_server.
  assert (logger (suspend i Finished q) = None) as -> by exact Hml.
  cbn [opt_info]. unfold shutdown_db.
  change (trace (suspend i Finished q)) with (trace q).
  destruct (getSequelize_ret w (trace q)) as [sq|].
  2:{ split; [done|]. by apply run_exited. }
  split; [exact Hex|].
  set (q1 := suspend i ShutAwaitSequelizeClose _).
  assert (tasks q1 !! i = Some ShutAwaitSequelizeClose) as Ht1.
  { unfold q1, suspend. cbn [tasks set_tasks emit].
    apply list_lookup_insert_eq. rewrite length_insert.
    by apply lookup_lt_Some in Ht. }
  rewrite (step_settle w q1 i _ r' Hex Ht1). cbn [resume].
  destruct r' as [e|]; (split; [done|]); by apply run_exited.
Qed.

Lemma each_signal_starts_a_shutdown_witness :
  let q := run fair_world running (map EvSignal [SIGINT; SIGTERM; SIGINT]) in
  Serving 0 SinkLogger running /\
  0 < length [SIGINT; SIGTERM; SIGINT] /\
  tasks q
  = tasks running
    ++ [ShutAwaitServerClose; ShutAwaitServerClose; ShutAwaitServerClose] /\
  exited (step fair_world q
            (EvSettle (length (tasks running) + 0) (Some sample_error)))
  = Some (ExitCode 1).
Proof.
  cbv zeta.
  assert (Serving 0 SinkLogger running) as Hs by (by vm_compute).
  assert (0 < length [SIGINT; SIGTERM; SIGINT]) as Hj by (cbn; lia).
  split; [exact Hs|]. split; [exact Hj|].
  destruct (each_signal_starts_a_shutdown fair_world 0 SinkLogger
              [SIGINT; SIGTERM; SIGINT] running Hs) as (_ & Hts & _ & Hend).
  split; [exact Hts|].
  exact (proj1 (Hend 0 (Some sample_error) None [] Hj)).
Defined.

(** ** A release step that fails *)

(** C3, as stated, fails: when the close of the server reports an error the
    process exits and [sequelize.close()] was never called. *)
Lemma listener_close_error_skips_persistence :
  let q := run fair_world running
             [EvSignal SIGINT; EvSettle 1 (Some sample_error)] in
  exited q = Some (ExitCode 1) /\ count is_sequelize_close (trace q) = 0.
Proof. by vm_compute. Qed.

(** C3, amended: an error of the listener stop step is caught by the one
    [catch] of the shutdown sequence, which logs through the module-level
    logger when there is one and ends the process with exit code 1; the
    persistence close step is skipped and nothing runs afterwards. *)
Theorem listener_close_error_aborts_shutdown w p i e evs :
  exited p = None ->
  tasks p !! i = Some ShutAwaitServerClose ->
  let q := step w p (EvSettle i (Some e)) in
  trace q
  = trace p
    ++ match logger p with
       | Some _ => [SinkError ("[优雅关闭失败] " +:+ message e) (Some (stack e))]
       | None => []
       end
    ++ [Exit 1] /\
  exited q = Some (ExitCode 1) /\
  count is_sequelize_close (trace q) = count is_sequelize_close (trace p) /\
  run w q evs = q.
Proof.
  intros Hex Ht. cbv zeta. rewrite (step_settle w p i _ _ Hex Ht).
  cbn [resume]. unfold shutdown_catch, opt_error, process_exit, suspend.
  cbn [logger set_tasks]. 
  assert (forall q, exited (set_exited (ExitCode 1) q) = Some (ExitCode 1))
    as Hx by done.
  rewrite run_exited by (by rewrite Hx).
  destruct (logger p); cbn [trace emit set_tasks set_exited exited];
    rewrite <- ?app_assoc; cbn [app]; repeat split; try done;
    rewrite ?count_app; by cbn.
Qed.

Lemma listener_close_error_aborts_shutdown_witness :
  let p := run fair_world running [EvSignal SIGINT] in
  exited p = None /\
  tasks p !! 1 = Some ShutAwaitServerClose /\
  exited (step fair_world p (EvSettle 1 (Some sample_error)))
  = Some (ExitCode 1).
Proof.
  cbv zeta.
  assert (exited (run fair_world running [EvSignal SIGINT]) = None)
    as Hex by (by vm_compute).
  assert (tasks (run fair_world running [EvSignal SIGINT]) !! 1
          = Some ShutAwaitServerClose) as Ht by (by vm_compute).
  split; [exact Hex|]. split; [exact Ht|].
  apply (listener_close_error_aborts_shutdown fair_world _ 1 sample_error []
           Hex Ht).
Defined.

(** ** A bind that fails *)

(** C4, as stated, fails: persistence was initialized, the bind failed
    (once by [listen] throwing, once by the 'error' event of the server),
    and the process exited without any call of [sequelize.close()]. *)
Lemma bind_failure_leaves_persistence_open :
  (let q := run deaf_world init start_ok in
   exited q = Some (ExitCode 1) /\
   init_calls (trace q) = startup_calls deaf_world /\
   count is_sequelize_close (trace q) = 0) /\
  (let q := run fair_world init (start_ok ++ [EvServerError 0 addr_in_use]) in
   exited q = Some (ExitCode 1) /\
   init_calls (trace q) = startup_calls fair_world /\
   count is_sequelize_close (trace q) = 0).
Proof. by vm_compute. Qed.

(** C4, amended: when the three initializers have settled and the bind then
    fails, either by [listen] throwing or by the 'error' event of the server
    it returned, the failure is logged (on the console when [listen] threw,
    through the logger of line 64 when the server emitted 'error') and the
    process exits with code 1 at once: all four initializer calls were
    made, and [sequelize.close()] is not among the things the process
    did. *)
Theorem bind_failure_exits_without_closing_persistence w lg e evs :
  getLogger_ret w [InitLogger] = Some lg ->
  let q := run w init (start_ok ++ EvServerError 0 e :: evs) in
  exited q = Some (ExitCode 1) /\
  init_calls (trace q) = startup_calls w /\
  count is_sequelize_close (trace q) = 0 /\
  exists tr,
    match listen_throws w tr with
    | Some e' =>
        trace q
        = tr ++ [Listen (PORT w);
                 ConsoleError ("[服务启动失败] " +:+ message e') (stack e');
                 Exit 1]
    | None =>
        trace q
        = tr ++ [Listen (PORT w);
                 SinkError ("[HTTP服务器启动失败] " +:+ message e)
                   (Some (stack e))]
             ++ (if decide (code e = Some "EADDRINUSE")
                 then [SinkError
                         ("端口 " +:+ PORT w +:+ " 已被占用，请更换端口后重试") None]
                 else [])
             ++ [Exit 1]
    end.
Proof.
  intros Hlg. cbv zeta. rewrite run_app.
  pose proof (start_ok_calls w lg Hlg) as Hcalls. revert Hcalls.
  unfold start_ok. cbn [run fold_left].
  rewrite (step_start w init) by done.
  settle StartAwaitLogger. with_logger Hlg.
  settle (StartAwaitDB lg). unfold start_after_db.
  settle (StartAwaitMail lg). unfold start_after_mail.
  match goal with
  | |- context [listen_throws w ?t] => set (tr := t)
  end.
  destruct (listen_throws w tr) as [e'|] eqn:Hl.
  - intros Hcalls. rewrite steps_exited by done.
    rewrite step_exited by done.
    split; [done|]. split; [done|]. split; [done|].
    exists tr. rewrite Hl. reflexivity.
  - intros Hcalls. rewrite step_server_error with (lg := lg) by done.
    rewrite steps_exited by done.
    split; [done|]. unfold on_server_error.
    split; [|split].
    + case_decide; cbn [trace emit set_exited process_exit assign_server
                        register fold_left installed app] in *;
        rewrite ?init_calls_snoc; cbn [is_init_call];
        rewrite ?app_nil_r; exact Hcalls.
    + case_decide; cbn [trace emit set_exited process_exit assign_server
                        register fold_left installed app] in *;
        rewrite ?count_snoc; by cbn.
    + exists tr. rewrite Hl. by case_decide.
Qed.

Lemma bind_failure_exits_without_closing_persistence_witness :
  getLogger_ret fair_world [InitLogger] = Some SinkLogger /\
  exited (run fair_world init
            (start_ok ++ EvServerError 0 addr_in_use :: [EvSignal SIGTERM]))
  = Some (ExitCode 1).
Proof.
  split; [reflexivity|].
  apply (bind_failure_exits_without_closing_persistence fair_world SinkLogger
           addr_in_use [EvSignal SIGTERM] eq_refl).
Defined.

(** C7: the 'error' event of the server (the bind failed after [listen]
    returned), whatever the error, makes the callback of lines 85-92 log
    the failure, log the "port in use" line exactly when the error code is
    [EADDRINUSE], and end the process with exit code 1.  Along the whole
    execution, from the start to whatever is delivered after the error, the
    service is never running. *)
Theorem bind_error_event_exits w h lg p e evs n :
  exited p = None ->
  handlers p = installed h lg ->
  (forall tr, getLogger_ret w tr = Some lg) ->
  (forall tr, listen_throws w tr = None) ->
  (let q := step w p (EvServerError h e) in
   trace q
   = trace p
     ++ [SinkError ("[HTTP服务器启动失败] " +:+ message e) (Some (stack e))]
     ++ (if decide (code e = Some "EADDRINUSE")
         then [SinkError ("端口 " +:+ PORT w +:+ " 已被占用，请更换端口后重试") None]
         else [])
     ++ [Exit 1] /\
   exited q = Some (ExitCode 1) /\
   run w q evs = q /\
   ~ Running (run w q evs)) /\
  ~ Running (run w init (take n (start_ok ++ EvServerError 0 e :: evs))).
Proof.
  intros Hex Hh Hlg Hl. split.
  - cbv zeta. rewrite (step_server_error w h lg p e Hex Hh).
    rewrite run_exited by done.
    unfold on_server_error.
    split; [|repeat split; try done; intros [Hx _]; discriminate Hx].
    case_decide; cbn [trace emit process_exit set_exited exited];
      by rewrite <- !app_assoc.
  - pose proof (start_ok_serving w lg Hlg Hl) as Hs. revert Hs.
    unfold start_ok. cbn [app].
    destruct n as [|[|[|[|[|n]]]]]; cbn [take run fold_left].
    + intros _ [_ (h' & Hsi & _)]. discriminate Hsi.
    + intros _ [_ (h' & Hsi & _)]. discriminate Hsi.
    + intros _ [_ (h' & Hsi & _)]. revert Hsi.
      rewrite (step_start w init) by done.
      settle StartAwaitLogger. unfold start_after_logger. rewrite Hlg.
      discriminate.
    + intros _ [_ (h' & Hsi & _)]. revert Hsi.
      rewrite (step_start w init) by done.
      settle StartAwaitLogger. unfold start_after_logger. rewrite Hlg.
      settle (StartAwaitDB lg). discriminate.
    + intros _ [_ (h' & Hsi & Hin)]. revert Hin.
      rewrite (step_start w init) by done.
      settle StartAwaitLogger. unfold start_after_logger. rewrite Hlg.
      settle (StartAwaitDB lg). unfold start_after_db.
      settle (StartAwaitMail lg). unfold start_after_mail. rewrite Hl.
      cbn [listening assign_server register fold_left installed emit
           suspend set_tasks].
      apply not_elem_of_nil.
    + intros (Hx & _ & _ & Hhs).
      rewrite (step_server_error w 0 lg _ e Hx Hhs).
      rewrite steps_exited by done.
      intros [Hx' _]. discriminate Hx'.
Qed.

Lemma bind_error_event_exits_witness :
  let p := run fair_world init start_ok in
  let eacces := {| message := "listen EACCES: permission denied 0.0.0.0:80";
                   stack := "Error: listen EACCES"; code := Some "EACCES" |} in
  exited p = None /\
  handlers p = installed 0 SinkLogger /\
  (forall tr, getLogger_ret fair_world tr = Some SinkLogger) /\
  (forall tr, listen_throws fair_world tr = None) /\
  exited (step fair_world p (EvServerError 0 addr_in_use))
  = Some (ExitCode 1) /\
  exited (step fair_world p (EvServerError 0 eacces)) = Some (ExitCode 1).
Proof.
  cbv zeta.
  assert (exited (run fair_world init start_ok) = None) as Hex
    by (by vm_compute).
  assert (handlers (run fair_world init start_ok) = installed 0 SinkLogger)
    as Hh by (by vm_compute).
  split; [exact Hex|]. split; [exact Hh|].
  split; [reflexivity|]. split; [reflexivity|]. split.
  - apply (bind_error_event_exits fair_world 0 SinkLogger _ addr_in_use
             [EvListening 0] 3 Hex Hh (fun _ => eq_refl) (fun _ => eq_refl)).
  - apply (bind_error_event_exits fair_world 0 SinkLogger _
             {| message := "listen EACCES: permission denied 0.0.0.0:80";
                stack := "Error: listen EACCES"; code := Some "EACCES" |}
             [EvListening 0] 3 Hex Hh (fun _ => eq_refl) (fun _ => eq_refl)).
Defined.

(** ** How the shutdown sequence ends *)

(** C6, evaluated: the shutdown sequence ends the process with code 0 when
    both release steps succeed and with code 1 when one fails, but it logs
    neither the completion nor the error: between the signal and the exit
    the trace holds the release calls only. *)
Theorem shutdown_exit_codes_without_log :
  (let q := run fair_world running
              [EvSignal SIGINT; EvSettle 1 None; EvSettle 1 None] in
   exited q = Some (ExitCode 0) /\
   trace q
   = trace running ++ [ServerClose 0; GetSequelize; SequelizeClose; Exit 0]) /\
  (let q := run fair_world running
              [EvSignal SIGINT; EvSettle 1 None;
               EvSettle 1 (Some sample_error)] in
   exited q = Some (ExitCode 1) /\
   trace q
   = trace running ++ [ServerClose 0; GetSequelize; SequelizeClose; Exit 1]) /\
  (let q := run fair_world running
              [EvSignal SIGINT; EvSettle 1 (Some sample_error)] in
   exited q = Some (ExitCode 1) /\
   trace q = trace running ++ [ServerClose 0; Exit 1]).
Proof. by vm_compute. Qed.

(** ** Order of the release steps *)

Lemma lookup_spawned (ts : list Task) t : (ts ++ [t]) !! length ts = Some t.
Proof. by apply list_lookup_middle. Qed.

(** C9: one execution of the shutdown sequence first asks the server to
    close and suspends until the close callback reports; only when that
    has completed does it call [sequelize.close()], and it suspends again
    until the close has settled before it ends the process.  In every
    execution of the program, the persistence closes and the server closes
    still awaited together never outnumber the server closes requested. *)
Theorem shutdown_releases_in_reverse_order w h lg p s sq evs :
  Serving h lg p ->
  getSequelize_ret w (trace p ++ [ServerClose h]) = Some sq ->
  let i := length (tasks p) in
  let p1 := step w p (EvSignal s) in
  let p2 := step w p1 (EvSettle i None) in
  let p3 := step w p2 (EvSettle i None) in
  (trace p1 = trace p ++ [ServerClose h] /\
   tasks p1 !! i = Some ShutAwaitServerClose /\
   exited p1 = None) /\
  (trace p2 = trace p ++ [ServerClose h; GetSequelize; SequelizeClose] /\
   tasks p2 !! i = Some ShutAwaitSequelizeClose /\
   exited p2 = None) /\
  (trace p3 = trace p ++ [ServerClose h; GetSequelize; SequelizeClose; Exit 0] /\
   exited p3 = Some (ExitCode 0)) /\
  (let q := run w init evs in
   count is_sequelize_close (trace q) + ntasks awaits_server_close (tasks q)
   <= count is_server_close (trace q)).
Proof.
  intros Hp Hsq. cbv zeta.
  rewrite (step_signal_serving w h lg p s Hp).
  destruct p as [si ml hs ts ls nh tr ex].
  destruct Hp as (Hex & Hsi & Hml & Hhs). cbn in Hex, Hsi, Hml, Hhs, Hsq.
  subst ex si ml hs. cbn [tasks].
  set (p1 := spawn ShutAwaitServerClose (emit (ServerClose h) _)).
  assert (tasks p1 !! length ts = Some ShutAwaitServerClose) as Ht1
    by apply lookup_spawned.
  rewrite (step_settle w p1 (length ts) _ None eq_refl Ht1).
  cbn [resume]. unfold shutdown_after_server, shutdown_db.
  cbn [p1 logger opt_info trace spawn emit suspend set_tasks tasks].
  rewrite Hsq.
  set (p2 := suspend _ ShutAwaitSequelizeClose _).
  assert (tasks p2 !! length ts = Some ShutAwaitSequelizeClose) as Ht2.
  { unfold p2, p1, suspend, spawn. cbn [tasks set_tasks emit].
    apply list_lookup_insert_eq. rewrite length_insert, length_app. cbn. lia. }
  rewrite (step_settle w p2 (length ts) _ None eq_refl Ht2).
  split; [by repeat split|]. split.
  { split; [|by split]. cbn. by rewrite <- !app_assoc. }
  split.
  { split; [|done]. cbn. by rewrite <- !app_assoc. }
  apply (run_close_order w evs init close_order_init).
Qed.

Lemma shutdown_releases_in_reverse_order_witness :
  Serving 0 SinkLogger running /\
  getSequelize_ret fair_world (trace running ++ [ServerClose 0])
  = Some DbConnection /\
  trace (step fair_world
           (step fair_world (step fair_world running (EvSignal SIGQUIT))
              (EvSettle (length (tasks running)) None))
           (EvSettle (length (tasks running)) None))
  = trace running ++ [ServerClose 0; GetSequelize; SequelizeClose; Exit 0].
Proof.
  assert (Serving 0 SinkLogger running) as Hs by (by vm_compute).
  split; [exact Hs|]. split; [reflexivity|].
  apply (shutdown_releases_in_reverse_order fair_world 0 SinkLogger running
           SIGQUIT DbConnection [] Hs eq_refl).
Defined.

(** ** The two loggers *)

(** C10, as stated, fails for the fault callbacks: they are closures of the
    [try] block and see the logger of line 64, so their log call reaches
    the sink. *)
Lemma fault_callback_logs_to_sink :
  logger running = None /\
  trace (step fair_world running (EvUncaught sample_error))
  = trace running
    ++ [SinkError "[未捕获异常] boom" (Some "Error: boom"); ServerClose 0].
Proof. by vm_compute. Qed.

(** C10, amended: in every execution the module-level [logger] stays
    [null]; hence no step of the shutdown sequence writes a log line, and a
    start-up failure is reported on the console even when the logger was
    initialized.  The fault callbacks, however, are closures of the [try]
    block: in a serving process they log the fault through the logger of
    line 64 before they start the shutdown. *)
Theorem module_logger_never_assigned w evs signal i r e h lg rs :
  let p := run w init evs in
  logger p = None /\
  count is_log (trace (gracefulShutdown w signal p)) = count is_log (trace p) /\
  count is_log (trace (resume w i ShutAwaitServerClose r p))
  = count is_log (trace p) /\
  count is_log (trace (resume w i ShutAwaitSequelizeClose r p))
  = count is_log (trace p) /\
  trace (start_catch e p)
  = trace p ++ [ConsoleError ("[服务启动失败] " +:+ message e) (stack e); Exit 1] /\
  (Serving h lg p ->
   trace (step w p (EvUncaught e))
   = trace p ++ [SinkError ("[未捕获异常] " +:+ message e) (Some (stack e));
                 ServerClose h] /\
   trace (step w p (EvUnhandled rs))
   = trace p ++ [SinkError ("[未处理Promise拒绝] " +:+ reason_shown rs)
                   (reason_stack rs);
                 ServerClose h]).
Proof.
  cbv zeta. pose proof (run_logger w evs init) as Hlg.
  set (p := run w init evs) in *. cbn [logger init] in Hlg.
  split; [done|].
  assert (forall q, logger q = None ->
            forall t, (t = ShutAwaitServerClose \/ t = ShutAwaitSequelizeClose) ->
            count is_log (trace (resume w i t r q)) = count is_log (trace q))
    as Hres.
  { intros q Hq t [-> | ->]; destruct r; cbn [resume]; unfold_program;
      cbn [logger set_tasks]; rewrite Hq; repeat case_match;
      cbn [logger trace emit set_tasks set_exited] in *; try congruence;
      rewrite ?count_snoc; cbn [is_log b2n]; lia. }
  split.
  { unfold_program. rewrite Hlg. repeat case_match;
      cbn [logger trace emit set_tasks set_exited] in *; try congruence;
      rewrite ?count_snoc; cbn [is_log b2n]; lia. }
  split; [by apply Hres; auto|]. split; [by apply Hres; auto|].
  split.
  { unfold start_catch. rewrite Hlg. cbn. by rewrite <- app_assoc. }
  intros Hs. rewrite (step_uncaught_serving w h lg p e Hs).
  rewrite (step_unhandled_serving w h lg p rs Hs).
  cbn. by rewrite <- !app_assoc.
Qed.

Lemma module_logger_never_assigned_witness :
  Serving 0 SinkLogger (run fair_world init start_ok) /\
  trace (step fair_world (run fair_world init start_ok) (EvUncaught sample_error))
  = trace (run fair_world init start_ok)
    ++ [SinkError ("[未捕获异常] " +:+ message sample_error)
          (Some (stack sample_error));
        ServerClose 0].
Proof.
  assert (Serving 0 SinkLogger (run fair_world init start_ok)) as Hs
    by (by vm_compute).
  split; [exact Hs|].
  pose proof (module_logger_never_assigned fair_world start_ok "SIGINT" 0 None
                sample_error 0 SinkLogger
                {| reason_message := None; reason_stack := None;
                   reason_text := "timeout" |}) as H.
  cbv zeta in H. destruct H as (_ & _ & _ & _ & _ & H).
  exact (proj1 (H Hs)).
Defined.

(** * Further properties of the entry point *)

(** ** Shape of the registered callbacks *)

Lemma all_installed_S n :
  all_installed (S n) = all_installed n ++ installed n SinkLogger.
Proof.
  unfold all_installed. rewrite seq_S, flat_map_app. cbn [flat_map plus].
  by rewrite app_nil_r.
Qed.

Lemma step_handlers_shape w p ev : handlers_shape p -> handlers_shape (step w p ev).
Proof.
  apply (step_invariant w handlers_shape ev); unfold handlers_shape.
  - intros _ q [Hh Hs] _. by frame_cases.
  - intros q i t r [Hh Hs] _ _.
    destruct t, r; cbn [resume]; frame_cases; try (by split).
    rewrite all_installed_S, Hh.
    match goal with l : Logger |- _ => destruct l end.
    split; [|done]. unfold installed. by rewrite <- !app_assoc.
  - intros q [Hh Hs]. by split.
  - intros q h [Hh Hs]. by split.
  - intros q hd [Hh Hs] Hex _. unfold fire. rewrite Hex.
    destruct hd, ev; try (by split); try case_decide; try (by split);
      frame_cases; by split.
Qed.

Lemma run_handlers_shape w evs : handlers_shape (run w init evs).
Proof.
  apply (run_invariant w handlers_shape).
  - intros p ev _. apply step_handlers_shape.
  - by split.
Qed.

(** ** Calls of [process.exit] *)

Lemma step_exit_once w p ev : exit_once p -> exit_once (step w p ev).
Proof.
  apply (step_invariant w exit_once ev); unfold exit_once.
  - intros _ q (H0 & H1 & H2) Hex. specialize (H0 Hex). frame_cases.
    rewrite count_snoc. cbn [is_exit b2n]. rewrite Hex.
    split; [lia|]. split; [lia|]. done.
  - intros q i t r (H0 & H1 & H2) Hex _. specialize (H0 Hex).
    destruct t, r; cbn [resume]; frame_cases;
      rewrite ?last_snoc, ?count_snoc, ?H0, ?Hex; cbn [is_exit b2n];
      (split; [try done; lia|]); (split; [lia|]);
      intros c Hc; try done; injection Hc as <-; split; auto.
  - intros q (H0 & H1 & H2). cbn. split; [done|]. split; [done|]. done.
  - intros q h (H0 & H1 & H2). done.
  - intros q hd (H0 & H1 & H2) Hex _. specialize (H0 Hex).
    unfold fire. rewrite Hex.
    destruct hd, ev; try done; try case_decide; try done; frame_cases;
      rewrite ?last_snoc, ?count_snoc, ?H0, ?Hex; cbn [is_exit b2n];
      (split; [try done; lia|]); (split; [lia|]);
      intros c Hc; try done; injection Hc as <-; split; auto.
Qed.

Lemma run_exit_once w evs : exit_once (run w init evs).
Proof.
  apply (run_invariant w exit_once).
  - intros p ev _. apply step_exit_once.
  - unfold exit_once. cbn. split; [done|]. split; [lia|]. done.
Qed.

(** ** Before the first server exists *)

Lemma ntasks_lookup_pos f (ts : list Task) i t :
  ts !! i = Some t -> f t = true -> 0 < ntasks f ts.
Proof.
  intros Hi Hf. pose proof (ntasks_insert f ts i t t Hi) as H.
  rewrite (list_insert_id ts i t Hi) in H.
  revert i Hi H. induction ts as [|x ts IH]; intros i Hi _; [done|].
  rewrite ntasks_cons. destruct i as [|i]; simpl in Hi.
  - injection Hi as ->. rewrite Hf. cbn. lia.
  - specialize (IH i Hi eq_refl). lia.
Qed.

Lemma step_quiet_before_listen w p ev :
  handlers_shape p -> quiet_before_listen p -> quiet_before_listen (step w p ev).
Proof.
  intros Hshape Hq.
  set (I := fun q => handlers_shape q /\ quiet_before_listen q).
  cut (I (step w p ev)); [by intros [_ ?]|].
  apply (step_invariant w I ev); subst I; cbn beta; [..|done].
  - intros _ q [Hs Hn] _. split.
    { destruct Hs. by split. }
    unfold quiet_before_listen in *. frame_cases. intros Hz.
    destruct (Hn Hz) as (H1 & H2 & H3). count_arith.
    cbn [is_shutdown_task b2n]. lia.
  - intros q i t r [Hs Hn] Hex Ht. split.
    { pose proof (step_handlers_shape w q (EvSettle i r) Hs) as H.
      by rewrite (step_settle w q i t r Hex Ht) in H. }
    unfold quiet_before_listen in *.
    pose proof (ntasks_insert is_shutdown_task _ i t Finished Ht) as Hf.
    pose proof (ntasks_insert is_shutdown_task _ i t
                  (StartAwaitDB SinkLogger) Ht) as Hdb.
    pose proof (ntasks_insert is_shutdown_task _ i t
                  (StartAwaitMail SinkLogger) Ht) as Hm.
    cbn [b2n is_shutdown_task] in Hf, Hdb, Hm.
    assert (is_shutdown_task t = true -> nextHandle q <> 0) as Hpos.
    { intros Hsh Hz. destruct (Hn Hz) as (_ & _ & H3).
      pose proof (ntasks_lookup_pos _ _ _ _ Ht Hsh). lia. }
    destruct t, r; cbn [resume]; frame_cases; intros Hz;
      try (exfalso; by apply Hpos); try done;
      destruct (Hn Hz) as (H1 & H2 & H3);
      cbn [b2n is_shutdown_task] in *; count_arith;
      try match goal with l : Logger |- _ => destruct l end;
      repeat split; lia.
  - intros q [Hs Hn]. split; [by destruct Hs|]. done.
  - intros q h [Hs Hn]. split; [by destruct Hs|]. done.
  - intros q hd [Hs Hn] Hex Hne. split.
    { unfold fire. rewrite Hex.
      destruct Hs as [Hh Hsi].
      destruct hd, ev; try (by split); try case_decide; try (by split);
        frame_cases; by split. }
    unfold quiet_before_listen in *.
    assert (nextHandle (fire w ev q hd) = nextHandle q) as ->.
    { unfold fire. rewrite Hex.
      destruct hd, ev; try done; try case_decide; try done; frame_cases. }
    intros Hz. destruct Hs as [Hh _]. rewrite Hz in Hh. done.
Qed.

Lemma run_quiet_before_listen w evs : quiet_before_listen (run w init evs).
Proof.
  cut (handlers_shape (run w init evs) /\ quiet_before_listen (run w init evs));
    [by intros [_ ?]|].
  apply (run_invariant w (fun q => handlers_shape q /\ quiet_before_listen q)).
  - intros p ev _ [Hs Hq]. split.
    + by apply step_handlers_shape.
    + by apply step_quiet_before_listen.
  - split; [by split|]. by intros _.
Qed.

(** ** A clean exit *)

Ltac closes_after Hc :=
  let H := fresh "Hd" in
  intros [H|H];
  [ match type of Hc with
    | _ -> ?G => assert G by (apply Hc; left; lia)
    end;
    lia
  | congruence ].

Lemma step_closed_before_clean_exit w p ev :
  closed_before_clean_exit p -> closed_before_clean_exit (step w p ev).
Proof.
  apply (step_invariant w closed_before_clean_exit ev);
    unfold closed_before_clean_exit.
  - intros _ q [Hs Hc] Hex. frame_cases. split; [done|].
    count_arith. cbn [is_shutdown_task b2n]. rewrite Hex.
    closes_after Hc.
  - intros q i t r [Hs Hc] Hex Ht.
    pose proof (ntasks_insert is_shutdown_task _ i t Finished Ht) as Hf.
    pose proof (ntasks_insert is_shutdown_task _ i t
                  ShutAwaitSequelizeClose Ht) as Hq.
    pose proof (ntasks_insert is_shutdown_task _ i t
                  (StartAwaitDB SinkLogger) Ht) as Hdb.
    pose proof (ntasks_insert is_shutdown_task _ i t
                  (StartAwaitMail SinkLogger) Ht) as Hm.
    cbn [b2n is_shutdown_task] in Hf, Hq, Hdb, Hm.
    assert (is_shutdown_task t = true -> 0 < count is_server_close (trace q))
      as Hpos.
    { intros Hsh. apply Hc. left. by eapply ntasks_lookup_pos. }
    rewrite Hex in Hc.
    destruct t, r; cbn [resume]; frame_cases;
      cbn [b2n is_shutdown_task] in *;
      (split; [by eauto|]); count_arith;
      try match goal with l : Logger |- _ => destruct l end;
      try (specialize (Hpos eq_refl); intros _; lia);
      closes_after Hc.
  - intros q [Hs Hc]. split; [done|]. cbn [tasks trace exited set_exited].
    closes_after Hc.
  - intros q h [Hs Hc]. by split.
  - intros q hd [Hs Hc] Hex Hne.
    destruct Hs as [[h Hh]|Hnil]; [|done].
    rewrite Hex in Hc.
    unfold fire. rewrite Hex.
    destruct hd, ev; try case_decide; unfold_program; rewrite ?Hh;
      repeat case_match;
      cbn [serverInstance logger handlers tasks trace exited emit set_tasks
           set_exited] in *;
      try congruence; (split; [by eauto|]); count_arith;
      cbn [is_shutdown_task b2n]; rewrite ?Hex;
      try (intros _; lia);
      closes_after Hc.
Qed.

Lemma run_closed_before_clean_exit w evs :
  closed_before_clean_exit (run w init evs).
Proof.
  apply (run_invariant w closed_before_clean_exit).
  - intros p ev _. apply step_closed_before_clean_exit.
  - split; [by right|]. cbn. intros [H|H]; [lia | done].
Qed.

(** ** Events delivered to the callbacks of several starts *)

Lemma fold_fire_exited w ev hs : forall p,
  is_Some (exited p) -> fold_left (fire w ev) hs p = p.
Proof.
  induction hs as [|hd hs IH]; intros p Hp; [done|].
  cbn [fold_left]. rewrite fire_exited by done. by apply IH.
Qed.

Lemma fold_fire_silent w ev hs : forall p,
  Forall (fun hd => listens ev hd = false) hs ->
  fold_left (fire w ev) hs p = p.
Proof.
  induction hs as [|hd hs IH]; intros p Hf; [done|].
  inversion Hf as [|? ? Hhd Hhs]; subst.
  cbn [fold_left]. rewrite fire_not_listening by done. by apply IH.
Qed.

Lemma existsb_all_installed ev n :
  existsb (listens ev) (all_installed n)
  = existsb (fun h => existsb (listens ev) (installed h SinkLogger)) (seq 0 n).
Proof.
  unfold all_installed. induction (seq 0 n) as [|h hs IH]; [done|].
  cbn [flat_map existsb]. by rewrite existsb_app, IH.
Qed.

(** The callbacks of one start, for a signal. *)
Lemma fire_block_signal w s h lg k p :
  exited p = None -> logger p = None -> serverInstance p = Some k ->
  fold_left (fire w (EvSignal s)) (installed h lg) p
  = spawn ShutAwaitServerClose (emit (ServerClose k) p).
Proof.
  destruct p as [si ml hs ts ls nh tr ex]. cbn. intros -> -> ->.
  by destruct s.
Qed.

Lemma fire_blocks_signal w s k hs : forall p,
  exited p = None -> logger p = None -> serverInstance p = Some k ->
  let q := fold_left (fire w (EvSignal s))
             (flat_map (fun h => installed h SinkLogger) hs) p in
  trace q = trace p ++ repeat (ServerClose k) (length hs) /\
  tasks q = tasks p ++ repeat ShutAwaitServerClose (length hs) /\
  exited q = None.
Proof.
  induction hs as [|h hs IH]; intros p Hex Hlg Hsi; cbv zeta.
  - cbn. by rewrite !app_nil_r.
  - cbn [flat_map length repeat]. rewrite fold_left_app.
    rewrite (fire_block_signal w s h SinkLogger k p Hex Hlg Hsi).
    destruct (IH (spawn ShutAwaitServerClose (emit (ServerClose k) p)))
      as (Htr & Hts & Hx); try done.
    cbv zeta in Htr, Hts, Hx. rewrite Htr, Hts, Hx.
    cbn [trace tasks spawn emit set_tasks]. by rewrite <- !app_assoc.
Qed.

(** The callbacks of the start that created server [h'], for the 'error'
    event of server [h]. *)
Lemma installed_silent_for_other_server h h' e :
  h' <> h ->
  Forall (fun hd => listens (EvServerError h e) hd = false)
    (installed h' SinkLogger).
Proof.
  intros Hne. unfold installed.
  repeat constructor. cbn. by rewrite bool_decide_false.
Qed.

Lemma fire_block_server_error w h e p :
  exited p = None ->
  fold_left (fire w (EvServerError h e)) (installed h SinkLogger) p
  = on_server_error w SinkLogger e p.
Proof.
  intros Hex. unfold installed. cbn [fold_left].
  rewrite (fire_not_listening _ _ p) by done.
  assert (fire w (EvServerError h e) p (HServerError h SinkLogger)
          = on_server_error w SinkLogger e p) as ->.
  { unfold fire. rewrite Hex. by rewrite decide_True. }
  rewrite !fire_exited; auto; by rewrite ?on_server_error_exited.
Qed.

Lemma dispatch_server_error w h e n p :
  exited p = None -> handlers p = all_installed n -> h < n ->
  dispatch w (EvServerError h e) p = on_server_error w SinkLogger e p.
Proof.
  intros Hex Hh Hlt. unfold dispatch. rewrite Hh. unfold all_installed.
  replace n with (h + S (n - S h)) by lia.
  rewrite seq_app, flat_map_app, fold_left_app.
  rewrite (fold_fire_silent w _ (flat_map _ (seq 0 h)) p).
  2:{ apply Forall_flat_map, Forall_forall. intros h' Hin.
      apply installed_silent_for_other_server.
      apply elem_of_seq in Hin. lia. }
  cbn [seq flat_map plus]. rewrite fold_left_app.
  rewrite fire_block_server_error by done.
  by rewrite fold_fire_exited.
Qed.

(** ** Properties over all executions *)

(** X1: in every execution the registered callbacks are exactly the seven
    callbacks of each server created so far, in creation order, and
    [serverInstance] holds the server created last; in particular no
    callback is registered while [serverInstance] is still [null]. *)
Theorem callbacks_registered_per_server w evs :
  let p := run w init evs in
  handlers p = all_installed (nextHandle p) /\
  serverInstance p = latest_server (nextHandle p) /\
  length (handlers p) = 7 * nextHandle p /\
  (serverInstance p = None <-> handlers p = []).
Proof.
  cbv zeta. destruct (run_handlers_shape w evs) as [Hh Hs].
  split; [done|]. split; [done|].
  assert (forall n, length (all_installed n) = 7 * n) as Hlen.
  { induction n as [|n IH]; [done|].
    rewrite all_installed_S, length_app, IH. cbn [length installed]. lia. }
  split; [by rewrite Hh, Hlen|].
  rewrite Hs. split.
  - destruct (nextHandle (run w init evs)); [by rewrite Hh | done].
  - intros Hnil. pose proof (Hlen (nextHandle (run w init evs))) as Hl.
    rewrite <- Hh, Hnil in Hl. cbn in Hl.
    by destruct (nextHandle (run w init evs)); [|lia].
Qed.

(** X2: [process.exit] is called at most once in an execution and never in
    a process that is still alive; when the process ended through it, the
    call is the last entry of the trace and its code is 0 or 1. *)
Theorem process_exit_called_once w evs c :
  let p := run w init evs in
  count is_exit (trace p) <= 1 /\
  (exited p = None -> count is_exit (trace p) = 0) /\
  (exited p = Some (ExitCode c) ->
   last (trace p) = Some (Exit c) /\ (c = 0 \/ c = 1)%Z).
Proof.
  cbv zeta. destruct (run_exit_once w evs) as (H0 & H1 & H2).
  split; [done|]. split; [done|]. apply H2.
Qed.

Lemma process_exit_called_once_witness :
  let p := run fair_world init
             (start_ok ++ [EvListening 0; EvSignal SIGINT; EvSettle 1 None;
                           EvSettle 1 None]) in
  exited p = Some (ExitCode 0) /\ last (trace p) = Some (Exit 0%Z).
Proof.
  cbv zeta.
  assert (exited (run fair_world init
                    (start_ok ++ [EvListening 0; EvSignal SIGINT;
                                  EvSettle 1 None; EvSettle 1 None]))
          = Some (ExitCode 0)) as Hx by (by vm_compute).
  split; [exact Hx|].
  exact (proj1 (proj2 (proj2 (process_exit_called_once fair_world _ 0%Z)) Hx)).
Defined.

(** X3: the signal and fault callbacks are registered only after
    [app.listen] returned.  A termination signal or a fault that arrives
    before that runs no code of the program: nothing is logged, nothing is
    released, [gracefulShutdown] is not entered. *)
Theorem signal_before_listen_skips_shutdown w evs s e r :
  let p := run w init evs in
  exited p = None ->
  nextHandle p = 0 ->
  count is_server_close (trace p) = 0 /\
  count is_sequelize_close (trace p) = 0 /\
  step w p (EvSignal s) = set_exited RuntimeDefault p /\
  step w p (EvUncaught e) = set_exited RuntimeDefault p /\
  step w p (EvUnhandled r) = set_exited RuntimeDefault p.
Proof.
  cbv zeta. intros Hex Hz.
  destruct (run_quiet_before_listen w evs Hz) as (H1 & H2 & _).
  destruct (run_handlers_shape w evs) as [Hh _]. rewrite Hz in Hh.
  split; [done|]. split; [done|].
  unfold step, deliver. by rewrite Hex, Hh.
Qed.

Lemma signal_before_listen_skips_shutdown_witness :
  let p := run fair_world init [EvStart; EvSettle 0 None] in
  exited p = None /\ nextHandle p = 0 /\
  step fair_world p (EvSignal SIGTERM) = set_exited RuntimeDefault p.
Proof.
  cbv zeta.
  assert (exited (run fair_world init [EvStart; EvSettle 0 None]) = None)
    as Hex by (by vm_compute).
  assert (nextHandle (run fair_world init [EvStart; EvSettle 0 None]) = 0)
    as Hz by (by vm_compute).
  split; [exact Hex|]. split; [exact Hz|].
  apply (signal_before_listen_skips_shutdown fair_world
           [EvStart; EvSettle 0 None] SIGTERM sample_error
           {| reason_message := None; reason_stack := None;
              reason_text := "late" |} Hex Hz).
Defined.

(** X4: the 'error' callback stays registered for the whole life of a
    server.  Whenever a server that was created emits 'error', bound or
    not, the process logs the error, adds the port line exactly when the
    code is [EADDRINUSE], and exits with code 1 without entering the
    shutdown sequence. *)
Theorem server_error_ends_process w evs h e :
  let p := run w init evs in
  exited p = None ->
  h < nextHandle p ->
  let q := step w p (EvServerError h e) in
  exited q = Some (ExitCode 1) /\
  trace q
  = trace p
    ++ [SinkError ("[HTTP服务器启动失败] " +:+ message e) (Some (stack e))]
    ++ (if decide (code e = Some "EADDRINUSE")
        then [SinkError ("端口 " +:+ PORT w +:+ " 已被占用，请更换端口后重试") None]
        else [])
    ++ [Exit 1] /\
  tasks q = tasks p.
Proof.
  cbv zeta. intros Hex Hlt.
  destruct (run_handlers_shape w evs) as [Hh _].
  set (p := run w init evs) in *.
  assert (step w p (EvServerError h e) = on_server_error w SinkLogger e p)
    as ->.
  { unfold step, deliver. rewrite Hex.
    assert (existsb (listens (EvServerError h e)) (handlers p) = true) as ->.
    { rewrite Hh, existsb_all_installed. apply existsb_exists.
      exists h. split; [apply in_seq; lia|].
      cbn. by rewrite bool_decide_true. }
    by apply (dispatch_server_error w h e (nextHandle p)). }
  unfold on_server_error. split; [done|]. split; [|by case_decide].
  case_decide; cbn [trace emit process_exit set_exited];
    by rewrite <- !app_assoc.
Qed.

Lemma server_error_ends_process_witness :
  let p := run fair_world init (start_ok ++ [EvListening 0]) in
  exited p = None /\ 0 < nextHandle p /\
  exited (step fair_world p (EvServerError 0 sample_error))
  = Some (ExitCode 1).
Proof.
  cbv zeta.
  assert (exited (run fair_world init (start_ok ++ [EvListening 0])) = None)
    as Hex by (by vm_compute).
  assert (0 < nextHandle (run fair_world init (start_ok ++ [EvListening 0])))
    as Hlt by (vm_compute; lia).
  split; [exact Hex|]. split; [exact Hlt|].
  apply (server_error_ends_process fair_world (start_ok ++ [EvListening 0])
           0 sample_error Hex Hlt).
Defined.

(** ** Start-up edge cases *)

(** X5: when [getLogger()] hands out no object after [initLogger] settled,
    line 67 throws; the start fails like any other: the message and the
    stack of the error the runtime threw go to the console, the process
    exits with code 1, and neither [initDB] nor any later initializer is
    called. *)
Theorem missing_logger_fails_start w evs :
  getLogger_ret w [InitLogger] = None ->
  let q := run w init (EvStart :: EvSettle 0 None :: evs) in
  exited q = Some (ExitCode 1) /\
  trace q
  = [InitLogger; GetLogger;
     ConsoleError ("[服务启动失败] " +:+ message (no_logger_error w))
       (stack (no_logger_error w));
     Exit 1] /\
  init_calls (trace q) = [InitLogger].
Proof.
  intros Hlg. cbv zeta. cbn [run fold_left].
  rewrite (step_start w init) by done.
  settle StartAwaitLogger. with_logger Hlg.
  by rewrite steps_exited.
Qed.

Lemma missing_logger_fails_start_witness :
  let w := {| env_PORT := None; getLogger_ret := fun _ => None;
              getSequelize_ret := fun _ => None;
              listen_throws := fun _ => None;
              no_logger_error :=
                {| message := "Cannot read properties of null (reading 'info')";
                   stack := "TypeError: Cannot read properties of null";
                   code := None |} |} in
  getLogger_ret w [InitLogger] = None /\
  exited (run w init (EvStart :: EvSettle 0 None :: [EvSettle 0 None]))
  = Some (ExitCode 1).
Proof.
  cbv zeta. split; [reflexivity|].
  apply (missing_logger_fails_start
           {| env_PORT := None; getLogger_ret := fun _ => None;
              getSequelize_ret := fun _ => None;
              listen_throws := fun _ => None;
              no_logger_error :=
                {| message := "Cannot read properties of null (reading 'info')";
                   stack := "TypeError: Cannot read properties of null";
                   code := None |} |} [EvSettle 0 None] eq_refl).
Defined.

Lemma step_listening w h lg p :
  exited p = None -> handlers p = installed h lg ->
  step w p (EvListening h) = on_listening w lg (mark_listening h p).
Proof.
  intros Hex Hh. unfold step, dispatch. rewrite Hex.
  assert (handlers (mark_listening h p) = handlers p) as -> by done.
  rewrite Hh.
  cbn [existsb installed listens]. rewrite bool_decide_true by done.
  cbn [orb]. unfold installed. cbn [fold_left].
  assert (fire w (EvListening h) (mark_listening h p) (HListening h lg)
          = on_listening w lg (mark_listening h p)) as ->.
  { unfold fire. cbn [exited mark_listening]. rewrite Hex.
    by rewrite decide_True. }
  by rewrite !fire_not_listening.
Qed.

(** X10: when the three initializers settle, [listen] returns and the
    server reports that it is bound, the service is running: the process is
    alive, the bound server is the one in [serverInstance], and the last two
    log lines are the address and the documentation address with the
    configured port. *)
Theorem start_reaches_running w lg :
  (forall tr, getLogger_ret w tr = Some lg) ->
  (forall tr, listen_throws w tr = None) ->
  let p := run w init start_ok in
  let q := step w p (EvListening 0) in
  ~ Running p /\
  Running q /\
  trace q
  = trace p
    ++ [SinkInfo ("服务器启动成功 🚀，访问地址：http://localhost:" +:+ PORT w);
        SinkInfo ("Swagger文档地址：http://localhost:" +:+ PORT w +:+ "/api-docs")].
Proof.
  intros Hlg Hl. cbv zeta.
  pose proof (start_ok_serving w lg Hlg Hl) as (Hex & Hsi & Hml & Hh).
  assert (listening (run w init start_ok) = []) as Hls.
  { unfold start_ok. cbn [run fold_left].
    rewrite (step_start w init) by done.
    settle StartAwaitLogger. unfold start_after_logger. rewrite Hlg.
    settle (StartAwaitDB lg). unfold start_after_db.
    settle (StartAwaitMail lg). unfold start_after_mail. by rewrite Hl. }
  set (p := run w init start_ok) in *.
  split.
  { intros [_ (h & _ & Hin)]. rewrite Hls in Hin.
    by apply not_elem_of_nil in Hin. }
  rewrite (step_listening w 0 lg p Hex Hh). split.
  - split; [done|]. exists 0. split; [done|]. cbn. by left.
  - cbn [trace on_listening emit mark_listening]. by rewrite <- app_assoc.
Qed.

Lemma start_reaches_running_witness :
  (forall tr, getLogger_ret fair_world tr = Some SinkLogger) /\
  (forall tr, listen_throws fair_world tr = None) /\
  Running (step fair_world (run fair_world init start_ok) (EvListening 0)).
Proof.
  split; [reflexivity|]. split; [reflexivity|].
  apply (start_reaches_running fair_world SinkLogger
           (fun _ => eq_refl) (fun _ => eq_refl)).
Defined.

(** ** Shutdown edge cases *)

(** A serving process after a signal and the close callback without error:
    the shutdown sequence stands at line 41. *)
Lemma shutdown_after_close w h lg p s :
  Serving h lg p ->
  let i := length (tasks p) in
  step w (step w p (EvSignal s)) (EvSettle i None)
  = shutdown_db w (suspend i)
      (suspend i Finished (spawn ShutAwaitServerClose (emit (ServerClose h) p))).
Proof.
  intros Hp. cbv zeta. rewrite (step_signal_serving w h lg p s Hp).
  destruct Hp as (Hex & _ & Hml & _).
  rewrite (step_settle w _ (length (tasks p)) ShutAwaitServerClose None);
    [| done | apply lookup_spawned].
  cbn [resume]. unfold shutdown_after_server.
  match goal with
  | |- context [opt_info (logger ?x)] =>
      assert (logger x = None) as -> by exact Hml
  end.
  done.
Qed.

(** X6: when [getSequelize()] returns no connection, the shutdown sequence
    skips the persistence close: once the server has closed, the process
    exits with code 0 and [sequelize.close()] was never called. *)
Theorem shutdown_without_persistence_handle w h lg p s :
  Serving h lg p ->
  getSequelize_ret w (trace p ++ [ServerClose h]) = None ->
  let q := step w (step w p (EvSignal s)) (EvSettle (length (tasks p)) None) in
  trace q = trace p ++ [ServerClose h; GetSequelize; Exit 0] /\
  exited q = Some (ExitCode 0).
Proof.
  intros Hp Hsq. cbv zeta. rewrite (shutdown_after_close w h lg p s Hp).
  destruct Hp as (Hex & _ & Hml & _).
  unfold shutdown_db. cbn [trace suspend spawn emit set_tasks]. rewrite Hsq.
  unfold shutdown_finish. cbn [logger suspend spawn emit set_tasks].
  rewrite Hml.
  cbn [opt_info process_exit trace exited emit set_exited set_tasks
       suspend spawn].
  by rewrite <- !app_assoc.
Qed.

Lemma shutdown_without_persistence_handle_witness :
  let w := {| env_PORT := None; getLogger_ret := fun _ => Some SinkLogger;
              getSequelize_ret := fun _ => None;
              listen_throws := fun _ => None;
     no_logger_error := sample_type_error |} in
  let p := run w init start_ok in
  Serving 0 SinkLogger p /\
  getSequelize_ret w (trace p ++ [ServerClose 0]) = None /\
  exited (step w (step w p (EvSignal SIGINT))
            (EvSettle (length (tasks p)) None))
  = Some (ExitCode 0).
Proof.
  cbv zeta.
  set (w := {| env_PORT := None; getLogger_ret := fun _ => Some SinkLogger;
               getSequelize_ret := fun _ => None;
               listen_throws := fun _ => None;
     no_logger_error := sample_type_error |}).
  assert (Serving 0 SinkLogger (run w init start_ok)) as Hs
    by (by vm_compute).
  split; [exact Hs|]. split; [reflexivity|].
  apply (shutdown_without_persistence_handle w 0 SinkLogger _ SIGINT Hs
           eq_refl).
Defined.

(** X7: when [sequelize.close()] rejects, the shutdown sequence has
    attempted both release steps, and the process exits with code 1; the
    rejection is not written anywhere. *)
Theorem persistence_close_failure_exits_1 w h lg p s sq e :
  Serving h lg p ->
  getSequelize_ret w (trace p ++ [ServerClose h]) = Some sq ->
  let i := length (tasks p) in
  let q := step w (step w (step w p (EvSignal s)) (EvSettle i None))
             (EvSettle i (Some e)) in
  trace q = trace p ++ [ServerClose h; GetSequelize; SequelizeClose; Exit 1] /\
  exited q = Some (ExitCode 1).
Proof.
  intros Hp Hsq. cbv zeta. rewrite (shutdown_after_close w h lg p s Hp).
  destruct Hp as (Hex & _ & Hml & _).
  unfold shutdown_db. cbn [trace suspend spawn emit set_tasks]. rewrite Hsq.
  rewrite (step_settle w _ (length (tasks p)) ShutAwaitSequelizeClose (Some e)).
  - cbn [resume]. unfold shutdown_catch.
    cbn [logger suspend spawn emit set_tasks]. rewrite Hml.
    cbn [opt_error process_exit trace exited emit set_exited set_tasks
         suspend spawn].
    by rewrite <- !app_assoc.
  - done.
  - cbn [tasks set_tasks emit suspend spawn].
    rewrite list_insert_insert_eq. apply list_lookup_insert_eq.
    rewrite length_app. cbn. lia.
Qed.

Lemma persistence_close_failure_exits_1_witness :
  let p := run fair_world init start_ok in
  Serving 0 SinkLogger p /\
  getSequelize_ret fair_world (trace p ++ [ServerClose 0]) = Some DbConnection /\
  exited (step fair_world
            (step fair_world (step fair_world p (EvSignal SIGINT))
               (EvSettle (length (tasks p)) None))
            (EvSettle (length (tasks p)) (Some sample_error)))
  = Some (ExitCode 1).
Proof.
  cbv zeta.
  assert (Serving 0 SinkLogger (run fair_world init start_ok)) as Hs
    by (by vm_compute).
  split; [exact Hs|]. split; [reflexivity|].
  apply (persistence_close_failure_exits_1 fair_world 0 SinkLogger _ SIGINT
           DbConnection sample_error Hs eq_refl).
Defined.

(** X8: a fault runs the same teardown as a termination signal.  In a
    serving process the state after an uncaught exception or an unhandled
    rejection is the state a signal produces once the fault has been
    logged to the sink. *)
Theorem fault_shutdown_is_signal_shutdown w h lg p e r s :
  Serving h lg p ->
  step w p (EvUncaught e)
  = step w (emit (SinkError ("[未捕获异常] " +:+ message e) (Some (stack e))) p)
      (EvSignal s) /\
  step w p (EvUnhandled r)
  = step w (emit (SinkError ("[未处理Promise拒绝] " +:+ reason_shown r)
                    (reason_stack r)) p)
      (EvSignal s).
Proof.
  intros Hp.
  rewrite (step_uncaught_serving w h lg p e Hp).
  rewrite (step_unhandled_serving w h lg p r Hp).
  by rewrite !(step_signal_serving w h lg _ s) by (by apply Serving_emit).
Qed.

Lemma fault_shutdown_is_signal_shutdown_witness :
  let p := run fair_world init start_ok in
  Serving 0 SinkLogger p /\
  step fair_world p (EvUncaught sample_error)
  = step fair_world
      (emit (SinkError ("[未捕获异常] " +:+ message sample_error)
               (Some (stack sample_error))) p)
      (EvSignal SIGQUIT).
Proof.
  cbv zeta.
  assert (Serving 0 SinkLogger (run fair_world init start_ok)) as Hs
    by (by vm_compute).
  split; [exact Hs|].
  exact (proj1 (fault_shutdown_is_signal_shutdown fair_world 0 SinkLogger _
                  sample_error
                  {| reason_message := None; reason_stack := None;
                     reason_text := "x" |} SIGQUIT Hs)).
Defined.

(** X9: callbacks are never removed and [serverInstance] is overwritten by
    each start.  In a live process in which [n] servers were created, one
    termination signal enters the shutdown sequence [n] times, and every
    one of them asks the server created last to close; servers created
    earlier are not closed. *)
Theorem signal_after_repeated_starts w evs s :
  let p := run w init evs in
  let n := nextHandle p in
  exited p = None ->
  0 < n ->
  let q := step w p (EvSignal s) in
  trace q = trace p ++ repeat (ServerClose (n - 1)) n /\
  tasks q = tasks p ++ repeat ShutAwaitServerClose n /\
  exited q = None.
Proof.
  cbv zeta. intros Hex Hn.
  destruct (run_handlers_shape w evs) as [Hh Hsi].
  pose proof (run_logger w evs init) as Hlg. cbn [logger init] in Hlg.
  set (p := run w init evs) in *.
  assert (serverInstance p = Some (nextHandle p - 1)) as Hsi'.
  { rewrite Hsi. destruct (nextHandle p); [lia|]. cbn. f_equal. lia. }
  unfold step, deliver. rewrite Hex.
  assert (existsb (listens (EvSignal s)) (handlers p) = true) as ->.
  { rewrite Hh, existsb_all_installed. apply existsb_exists.
    exists 0. split; [apply in_seq; lia|]. by destruct s. }
  unfold dispatch. rewrite Hh. unfold all_installed.
  destruct (fire_blocks_signal w s (nextHandle p - 1) (seq 0 (nextHandle p)) p
              Hex Hlg Hsi') as (Htr & Hts & Hx).
  cbv zeta in Htr, Hts, Hx. rewrite length_seq in Htr, Hts. done.
Qed.

Lemma signal_after_repeated_starts_witness :
  let evs := start_ok ++ [EvStart; EvSettle 1 None; EvSettle 1 None;
                          EvSettle 1 None] in
  let p := run fair_world init evs in
  exited p = None /\ 0 < nextHandle p /\
  trace (step fair_world p (EvSignal SIGINT))
  = trace p ++ repeat (ServerClose (nextHandle p - 1)) (nextHandle p).
Proof.
  cbv zeta.
  assert (exited (run fair_world init
                    (start_ok ++ [EvStart; EvSettle 1 None; EvSettle 1 None;
                                  EvSettle 1 None])) = None)
    as Hex by (by vm_compute).
  assert (0 < nextHandle (run fair_world init
                    (start_ok ++ [EvStart; EvSettle 1 None; EvSettle 1 None;
                                  EvSettle 1 None])))
    as Hn by (vm_compute; lia).
  split; [exact Hex|]. split; [exact Hn|].
  apply (signal_after_repeated_starts fair_world _ SIGINT Hex Hn).
Defined.

(** X11: the process ends with exit code 0 only through the shutdown
    sequence, and only after it asked a server to close: no execution
    reaches exit code 0 without a call of [serverInstance.close]. *)
Theorem clean_exit_follows_server_close w evs :
  let p := run w init evs in
  exited p = Some (ExitCode 0) ->
  0 < count is_server_close (trace p).
Proof.
  cbv zeta. intros Hex.
  destruct (run_closed_before_clean_exit w evs) as [_ Hc].
  apply Hc. by right.
Qed.

Lemma clean_exit_follows_server_close_witness :
  let p := run fair_world init
             (start_ok ++ [EvSignal SIGTERM; EvSettle 1 None; EvSettle 1 None]) in
  exited p = Some (ExitCode 0) /\ 0 < count is_server_close (trace p).
Proof.
  cbv zeta.
  assert (exited (run fair_world init
                    (start_ok ++ [EvSignal SIGTERM; EvSettle 1 None;
                                  EvSettle 1 None]))
          = Some (ExitCode 0)) as Hex by (by vm_compute).
  split; [exact Hex|].
  apply (clean_exit_follows_server_close fair_world _ Hex).
Defined.

(** * The route listing *)

(** ** The pattern of line 65 *)

Lemma strip_regexp_cons c c2 s :
  strip_regexp (String c (String c2 s))
  = if Ascii.eqb c "\" && Ascii.eqb c2 "/" then strip_regexp s
    else if is_regexp_special c then strip_regexp (String c2 s)
    else String c (strip_regexp (String c2 s)).
Proof. reflexivity. Qed.

Lemma strip_regexp_two c s :
  strip_regexp (String c s) = keep_plain (String c s) /\
  strip_regexp s = keep_plain s.
Proof.
  revert c. induction s as [|c2 s IH]; intros c.
  - cbn. by destruct (is_regexp_special c).
  - destruct (IH c2) as [IH1 IH2]. split; [|done].
    rewrite strip_regexp_cons, IH1, IH2.
    change (keep_plain (String c (String c2 s)))
      with (if is_regexp_special c then keep_plain (String c2 s)
            else String c (keep_plain (String c2 s))).
    destruct (Ascii.eqb_spec c "\") as [->|Hc];
      destruct (Ascii.eqb_spec c2 "/") as [->|Hc2]; cbn [andb]; try done.
Qed.

Lemma strip_regexp_keep_plain s : strip_regexp s = keep_plain s.
Proof. apply (strip_regexp_two "a" s). Qed.

Lemma keep_plain_app a b : keep_plain (a +:+ b) = keep_plain a +:+ keep_plain b.
Proof.
  induction a as [|c a IH]; [done|].
  change (String c a +:+ b) with (String c (a +:+ b)).
  cbn [keep_plain]. rewrite IH. by destruct (is_regexp_special c).
Qed.

Lemma keep_plain_idem s : keep_plain (keep_plain s) = keep_plain s.
Proof.
  induction s as [|c s IH]; [done|].
  cbn. destruct (is_regexp_special c) eqn:E; [done|].
  cbn. by rewrite E, IH.
Qed.

Lemma keep_plain_clean s :
  forallb (fun c => negb (is_regexp_special c))
    (String.list_ascii_of_string (keep_plain s)) = true.
Proof.
  induction s as [|c s IH]; [done|].
  cbn. destruct (is_regexp_special c) eqn:E; [done|].
  cbn. by rewrite E, IH.
Qed.

(** X12: the replacement of line 65 removes exactly the characters
    [/ ^ $ \ + ?] and keeps all others in order; the two-character
    alternative at the head of the pattern changes nothing.  Hence the
    result holds none of these characters, the cleaning of a concatenation
    is the concatenation of the cleanings, and cleaning twice is cleaning
    once. *)
Theorem strip_regexp_removes_special_chars s a b :
  strip_regexp s = keep_plain s /\
  forallb (fun c => negb (is_regexp_special c))
    (String.list_ascii_of_string (strip_regexp s)) = true /\
  strip_regexp (a +:+ b) = strip_regexp a +:+ strip_regexp b /\
  strip_regexp (strip_regexp s) = strip_regexp s.
Proof.
  rewrite !strip_regexp_keep_plain.
  split; [done|]. split; [apply keep_plain_clean|].
  split; [apply keep_plain_app | apply keep_plain_idem].
Qed.

(** The replacement of line 65 on the source of a mount pattern. *)
Lemma strip_regexp_mount_source p :
  keep_plain p = p ->
  strip_regexp ("^\/" +:+ p +:+ "\/?(?=\/|$)") = p +:+ "(=|)".
Proof.
  intros Hp. rewrite strip_regexp_keep_plain, !keep_plain_app, Hp. done.
Qed.

(** X13: lines 62-69 do not extract the mount path from the source of a
    mount pattern.  For the source [^\/p\/?(?=\/|$)], where [p] holds none of
    the characters line 65 removes, the prefix they compute is what
    [replace('undefined', '')] and [trim] make of [p] followed by the rest
    of the look-ahead group, [(=|)].  When [p(=|)] holds no [undefined] and
    [trim] leaves it alone, the prefix is [p(=|)] and the routes of the
    mounted router are listed under [basePath/p(=|)]. *)
Theorem mount_prefix_keeps_lookahead_residue js p basePath :
  keep_plain p = p ->
  let source := "^\/" +:+ p +:+ "\/?(?=\/|$)" in
  mount_prefix js source
  = trim js (replace_first "undefined" "" (p +:+ "(=|)")) /\
  (replace_first "undefined" "" (p +:+ "(=|)") = p +:+ "(=|)" ->
   trim js (p +:+ "(=|)") = p +:+ "(=|)" ->
   mount_prefix js source = p +:+ "(=|)" /\
   child_base js basePath source = basePath +:+ "/" +:+ p +:+ "(=|)").
Proof.
  intros Hp. cbv zeta.
  assert (mount_prefix js ("^\/" +:+ p +:+ "\/?(?=\/|$)")
          = trim js (replace_first "undefined" "" (p +:+ "(=|)"))) as Hm.
  { unfold mount_prefix. cbv zeta.
    change (String.eqb ("^\/" +:+ p +:+ "\/?(?=\/|$)") "") with false.
    cbn iota. by rewrite (strip_regexp_mount_source p Hp). }
  split; [exact Hm|]. intros Hr Ht.
  rewrite Hr, Ht in Hm. split; [exact Hm|].
  unfold child_base. cbv zeta. rewrite Hm.
  assert (String.eqb (p +:+ "(=|)") "" = false) as -> by (by destruct p).
  done.
Qed.

Lemma mount_prefix_keeps_lookahead_residue_witness :
  keep_plain "api" = "api" /\
  replace_first "undefined" "" ("api" +:+ "(=|)") = "api" +:+ "(=|)" /\
  trim ascii_js ("api" +:+ "(=|)") = "api" +:+ "(=|)" /\
  child_base ascii_js "/v1" ("^\/" +:+ "api" +:+ "\/?(?=\/|$)")
  = "/v1" +:+ "/" +:+ "api" +:+ "(=|)".
Proof.
  split; [reflexivity|]. split; [reflexivity|]. split; [reflexivity|].
  exact (proj2 (proj2 (mount_prefix_keeps_lookahead_residue ascii_js "api"
                         "/v1" eq_refl) eq_refl eq_refl)).
Defined.

(** ** What [printRoutes] writes *)

(** Structural induction on targets, through the stacks and the handles
    of their layers. *)
Lemma Target_nested_ind (P : Target -> Prop) (Q : Layer -> Prop) :
  (forall r st,
     match r with Some r' => P r' | None => True end ->
     match st with Some ls => Forall Q ls | None => True end ->
     P (mkTarget r st)) ->
  (forall route name handle regexp,
     match handle with Some h => P h | None => True end ->
     Q (mkLayer route name handle regexp)) ->
  forall t, P t.
Proof.
  intros HT HL.
  exact (fix F (t : Target) : P t :=
    match t with
    | mkTarget r st =>
        HT r st
          (match r return match r with Some r' => P r' | None => True end with
           | Some r' => F r'
           | None => I
           end)
          (match st return match st with
                           | Some ls => Forall Q ls
                           | None => True
                           end with
           | Some ls =>
               (fix G (ls : list Layer) : Forall Q ls :=
                  match ls return Forall Q ls with
                  | [] => @List.Forall_nil Layer Q
                  | l :: ls' =>
                      @List.Forall_cons Layer Q l ls'
                        (match l with
                         | mkLayer route name handle regexp =>
                             HL route name handle regexp
                               (match handle return
                                      match handle with
                                      | Some h => P h
                                      | None => True
                                      end with
                                | Some h => F h
                                | None => I
                                end)
                         end)
                        (G ls')
                  end) ls
           | None => I
           end)
    end).
Qed.

Section Output.

Variable js : JsString.
Variable R : string -> list ConsoleLine -> Prop.

Hypothesis R_warn :
  forall base, R base [ConsoleWarn "[打印路由] 未找到路由栈（可能路由未挂载）"].
Hypothesis R_nil : forall base, R base [].
Hypothesis R_app :
  forall base l1 l2, R base l1 -> R base l2 -> R base (l1 ++ l2).
Hypothesis R_route : forall base r, R base [route_line js r base].
Hypothesis R_mount :
  forall base source out, R (child_base js base source) out -> R base out.

Let layer_ok (l : Layer) : Prop :=
  forall b, R b (print_layer js (printRoutes_from js) b l).

Let own_ok (t : Target) : Prop :=
  match t with
  | mkTarget _ (Some ls) => Forall layer_ok ls
  | _ => True
  end.

Let stacks_ok (t : Target) : Prop :=
  own_ok t /\ match t with mkTarget (Some r) _ => own_ok r | _ => True end.

Lemma flat_map_out base ls :
  Forall layer_ok ls ->
  R base (flat_map (print_layer js (printRoutes_from js) base) ls).
Proof.
  intros Hls. induction Hls as [|l ls Hl _ IHls]; [apply R_nil|].
  cbn [flat_map]. apply R_app; [apply Hl | apply IHls].
Qed.

Lemma stacks_ok_out t :
  stacks_ok t -> forall base, R base (printRoutes_from js t base).
Proof.
  destruct t as [[[r' [ls|]]|] st]; cbn [printRoutes_from];
    intros [Hown Hr] base; try apply R_warn; try (by apply flat_map_out).
  destruct st as [ls|]; [by apply flat_map_out | apply R_warn].
Qed.

(** Induction on the output of [printRoutes]: a property of the written
    lines, relative to the base path, that holds for the warning, for one
    route line, for nothing, is kept by concatenation and carries over from
    the base path of a mounted router. *)
Lemma printRoutes_from_out t base : R base (printRoutes_from js t base).
Proof.
  apply stacks_ok_out. clear base.
  induction t using Target_nested_ind with (Q := layer_ok).
  - split.
    + by destruct st.
    + destruct r as [[r' st']|]; [|done].
      match goal with H : stacks_ok _ |- _ => destruct H as [H _]; exact H end.
  - intros b. cbn [print_layer].
    destruct route as [rt|]; [apply R_route|].
    destruct (String.eqb name "router"); [|apply R_nil].
    destruct handle as [h|]; [|apply R_nil].
    destruct regexp as [src|]; [|apply R_nil].
    apply (R_mount b src). by apply stacks_ok_out.
Qed.

End Output.

Lemma string_app_assoc (a b c : string) : (a +:+ b) +:+ c = a +:+ (b +:+ c).
Proof.
  induction a as [|x a IH]; [done|].
  change ((String x a +:+ b) +:+ c) with (String x ((a +:+ b) +:+ c)).
  by rewrite IH.
Qed.

(** The lines [printRoutes] writes below the top-level check. *)
Lemma printRoutes_from_lines js t base line :
  line ∈ printRoutes_from js t base ->
  line = ConsoleWarn "[打印路由] 未找到路由栈（可能路由未挂载）" \/
  exists methods rest,
    line = ConsoleLog ("[路由] "
                       +:+ padEnd js (toUpperCase js (join ", " methods)) 8
                       +:+ " → " +:+ base +:+ rest).
Proof.
  revert line.
  apply (printRoutes_from_out js
           (fun base out => forall line, line ∈ out ->
              line = ConsoleWarn "[打印路由] 未找到路由栈（可能路由未挂载）" \/
              exists methods rest,
                line = ConsoleLog
                         ("[路由] "
                          +:+ padEnd js (toUpperCase js (join ", " methods)) 8
                          +:+ " → " +:+ base +:+ rest))).
  - intros b line Hin. left. by apply list_elem_of_singleton in Hin.
  - intros b line Hin. by apply not_elem_of_nil in Hin.
  - intros b l1 l2 H1 H2 line Hin.
    apply elem_of_app in Hin as [Hin|Hin]; auto.
  - intros b r line Hin. apply list_elem_of_singleton in Hin as ->.
    right. by exists (route_methods r), (path_text (route_path r)).
  - intros b src out Hout line Hin.
    destruct (Hout line Hin) as [->|(ms & rest & ->)]; [by left|].
    right. unfold child_base. exists ms.
    eexists. by rewrite string_app_assoc.
Qed.



(** X15: the warning about an empty target is written exactly when the
    top-level call is given no object: the recursive calls never write it,
    because a layer without a handle is skipped before the call. *)
Theorem printRoutes_null_target_warning js target base :
  ConsoleWarn "[打印路由] 无效的参数：target为空" ∈ printRoutes js target base
  <-> target = None.
Proof.
  split.
  - destruct target as [t|]; [|done]. intros Hin.
    apply printRoutes_from_lines in Hin as [Hw|(ms & rest & Hl)];
      discriminate.
  - intros ->. cbn. by left.
Qed.

Lemma printRoutes_null_target_warning_witness :
  ~ ConsoleWarn "[打印路由] 无效的参数：target为空"
      ∈ printRoutes ascii_js (Some (mkTarget None None)) "".
Proof.
  intros Hin.
  pose proof (proj1 (printRoutes_null_target_warning ascii_js
                       (Some (mkTarget None None)) "") Hin) as H.
  discriminate H.
Defined.

(** X16: layers that are neither a route nor a mounted router with a
    handle and a pattern (middleware, error handlers) do not show in the
    listing: removing them from the stack that is read changes nothing. *)
Theorem printRoutes_ignores_middleware js r' st ls base :
  printRoutes js (Some (mkTarget None (Some ls))) base
  = printRoutes js (Some (mkTarget None (Some (filter is_listed ls)))) base /\
  printRoutes js (Some (mkTarget (Some (mkTarget r' (Some ls))) st)) base
  = printRoutes js
      (Some (mkTarget (Some (mkTarget r' (Some (filter is_listed ls)))) st))
      base.
Proof.
  assert (flat_map (print_layer js (printRoutes_from js) base) ls
          = flat_map (print_layer js (printRoutes_from js) base)
              (filter is_listed ls)) as H.
  { induction ls as [|l ls IH]; [done|].
    rewrite filter_cons. cbn [flat_map].
    destruct l as [[rt|] name [h|] [src|]]; cbn [is_listed print_layer];
      try (rewrite decide_True by exact I; cbn [flat_map print_layer];
           by rewrite IH);
      try (destruct (String.eqb name "router");
           by rewrite ?decide_False by (by intros []); cbn [app]).
    destruct (String.eqb name "router") eqn:E.
    - rewrite decide_True by exact I. cbn [flat_map print_layer].
      by rewrite E, IH.
    - by rewrite decide_False by (by intros []). }
  by cbn [printRoutes printRoutes_from].
Qed.

(** * One start, one server; no shutdown outside the service *)

(** ** Invariants that need to know the process is alive *)

Section LiveInvariant.

Variable w : World.
Variable I : Proc -> Prop.
Variable ev : Event.

Hypothesis L_start :
  ev = EvStart -> forall p, I p -> exited p = None -> I (startServer p).
Hypothesis L_resume : forall p i t r,
  I p -> exited p = None -> tasks p !! i = Some t -> I (resume w i t r p).
Hypothesis L_default : forall p,
  I p -> exited p = None -> I (set_exited RuntimeDefault p).
Hypothesis L_listening : forall p h,
  ev = EvListening h -> I p -> exited p = None ->
  existsb (listens ev) (handlers p) = true -> I (mark_listening h p).
Hypothesis L_fire : forall p hd,
  I p -> exited p = None -> handlers p <> [] -> I (fire w ev p hd).


End LiveInvariant.

(** ** Servers and calls of [listen] *)








